(** * VideoCanvas: timeline, frame compositor and render scheduler

    A shallow embedding of [components/VideoCanvas.tsx]: the numeric
    helpers ([clamp], [easeInOutCubic]), the scene-selection loop and the
    drawing code of [drawFrame], [wrapText], and the callback-driven render
    engine ([cancelAnimation], [startAnimation], [renderVideo]).

    JavaScript numbers are modelled as exact rationals ([Q]); equalities
    between computed numbers are therefore stated with [==].  Division by
    zero, which JavaScript answers with an infinity or NaN, has no
    counterpart in [Q]: statements that depend on a quotient assume its
    divisor positive. *)

From Stdlib Require Import QArith Qminmax Qround Lqa Lia Psatz ZArith.
From Stdlib Require Import List String Ascii Bool DecimalString.
Import ListNotations.

Local Open Scope Q_scope.

(** ** Numbers *)

Module JsMath.

(** [Math.min] and [Math.max] on two arguments. *)
Definition Math_min (a b : Q) : Q := if Qle_bool a b then a else b.
Definition Math_max (a b : Q) : Q := if Qle_bool a b then b else a.

(** [Math.round]: the nearest integer, halves rounded up. *)
Definition Math_round (x : Q) : Z := Qfloor (x + (1 # 2)).

(** [Math.pow(x, 3)]. *)
Definition Math_pow3 (x : Q) : Q := x * x * x.

(** The comparisons [a >= b] and [a < b]. *)
Definition geb (a b : Q) : bool := Qle_bool b a.
Definition ltb (a b : Q) : bool := negb (Qle_bool b a).

(** const clamp = (value, min, max) => Math.min(Math.max(value, min), max) *)
Definition clamp (value min max : Q) : Q := Math_min (Math_max value min) max.

(** const easeInOutCubic = (t) =>
      (t < 0.5 ? 4 * t * t * t : 1 - Math.pow(-2 * t + 2, 3) / 2) *)
Definition easeInOutCubic (t : Q) : Q :=
  if ltb t (1 # 2) then 4 * t * t * t
  else 1 - Math_pow3 (- (2) * t + 2) / 2.

(** A template literal's rendering of an integer. *)
Definition string_of_Z (z : Z) : string := NilZero.string_of_int (Z.to_int z).

(** [list[i]] for a possibly negative index: [undefined] out of range. *)
Definition js_get {A : Type} (l : list A) (i : Z) : option A :=
  if (i <? 0)%Z then None else nth_error l (Z.to_nat i).

End JsMath.
Import JsMath.

(** ** Strings: [split(' ')] and [trim] *)

Module JsString.

Definition space : ascii := " "%char.

(** [text.split(' ')]: the pieces between single spaces; never empty. *)
Fixpoint split_space (s : string) : list string :=
  match s with
  | EmptyString => [EmptyString]
  | String c rest =>
      if Ascii.eqb c space then EmptyString :: split_space rest
      else match split_space rest with
           | w :: ws => String c w :: ws
           | [] => [String c EmptyString]
           end
  end.

(** White space as [trim] sees it, within the 7-bit characters: tab, line
    feed, vertical tab, form feed, carriage return and space. *)
Definition is_white (c : ascii) : bool :=
  let n := nat_of_ascii c in
  (Nat.leb 9 n && Nat.leb n 13) || Nat.eqb n 32.

Fixpoint trimStart (s : string) : string :=
  match s with
  | EmptyString => EmptyString
  | String c rest => if is_white c then trimStart rest else s
  end.

Fixpoint trimEnd (s : string) : string :=
  match s with
  | EmptyString => EmptyString
  | String c rest =>
      match trimEnd rest with
      | EmptyString => if is_white c then EmptyString else String c EmptyString
      | rest' => String c rest'
      end
  end.

Definition trim (s : string) : string := trimEnd (trimStart s).

End JsString.
Import JsString.

(** ** Data model *)

(** export type SceneConfig *)
Record SceneConfig := {
  title : string;
  subtitle : string;
  description : string;
  image : string;
  start : Q;
  duration : Q
}.

(** export type RenderStatus *)
Inductive RenderStatus :=
| idle | loading_assets | rendering | complete | error.

(** The part of an [HTMLImageElement] the compositor reads. *)
Record Image := {
  src : string;
  img_width : Q;
  img_height : Q
}.

Record Resolution := {
  res_width : Q;
  res_height : Q
}.

(** const DEFAULT_RESOLUTION = { width: 1280, height: 720 } *)
Definition DEFAULT_RESOLUTION : Resolution := {| res_width := 1280; res_height := 720 |}.

(** type VideoCanvasProps, without the three callbacks: their calls are
    recorded in the engine's trace. *)
Record Props := {
  scenes : list SceneConfig;
  total : Q;                (* the [duration] prop, in seconds *)
  fps : Q;
  resolution : Resolution
}.

(** ** The 2D context *)

Inductive Color := rgba (r g b : Z) (a : Q).

Inductive Paint :=
| Solid (c : Color)
| LinearGradient (x0 y0 x1 y1 : Q) (stops : list (Q * Color)).

(** A CSS font: size in pixels and family list (written without the inner
    quotation marks of the source). *)
Record Font := { px : Z; family : string }.

Inductive CanvasOp :=
| save
| restore
| clearRect (x y w h : Q)
| setFilter (f : string)
| drawImage (img : Image) (dx dy dw dh : Q)
| setFillStyle (p : Paint)
| fillRect (x y w h : Q)
| setStrokeStyle (p : Paint)
| setLineWidth (w : Q)
| strokeRect (x y w h : Q)
| setFont (f : Font)
| setTextBaseline (b : string)
| fillText (text : string) (x y : Q).

(** ** Timeline: the scene-selection loop of [drawFrame] *)

Module Timeline.

(** The [for] loop over [scenes]: [rest] is [scenes] from index [i] on,
    [accumulated] and [sceneIndex] are the loop's two variables.  The result
    is their value when the loop is left, by [break] or at the end. *)
Fixpoint sceneLoop (rest : list SceneConfig) (i : Z) (elapsedSeconds : Q)
  (accumulated : Q) (sceneIndex : Z) : Z * Q :=
  match rest with
  | [] => (sceneIndex, accumulated)
  | scene :: rest' =>
      let sceneStart := accumulated in
      let sceneEnd := accumulated + duration scene in
      if geb elapsedSeconds sceneStart && ltb elapsedSeconds sceneEnd
      then (i, accumulated)
      else sceneLoop rest' (i + 1)%Z elapsedSeconds
             (accumulated + duration scene) sceneIndex
  end.

(** let accumulated = 0; let sceneIndex = scenes.length - 1; for (...) *)
Definition resolveScene (scenes : list SceneConfig) (elapsedSeconds : Q) : Z * Q :=
  sceneLoop scenes 0%Z elapsedSeconds 0 (Z.of_nat (List.length scenes) - 1)%Z.

(** const sceneElapsed = elapsedSeconds - accumulated *)
Definition sceneElapsedOf (scenes : list SceneConfig) (elapsedSeconds : Q) : Q :=
  elapsedSeconds - snd (resolveScene scenes elapsedSeconds).

(** Sum of the durations of the scenes before index [i], and of all. *)
Fixpoint sumDurations (l : list SceneConfig) : Q :=
  match l with
  | [] => 0
  | s :: l' => duration s + sumDurations l'
  end.

Definition cumulativeStart (scenes : list SceneConfig) (i : nat) : Q :=
  sumDurations (firstn i scenes).

(** The window [cumulativeStart, cumulativeStart + duration) of scene [i]
    contains [t]. *)
Definition inWindow (scenes : list SceneConfig) (i : nat) (t : Q) : Prop :=
  exists scene, nth_error scenes i = Some scene /\
    cumulativeStart scenes i <= t /\
    t < cumulativeStart scenes i + duration scene.

End Timeline.
Import Timeline.

(** ** Compositor: the numbers of one frame *)

Module Compositor.

(** const zoom = 1 + 0.06 * easeInOutCubic(sceneProgress) *)
Definition zoomOf (sceneProgress : Q) : Q :=
  1 + (6 # 100) * easeInOutCubic sceneProgress.

(** const fadeWindow = Math.min(0.75, scene.duration / 3) *)
Definition fadeWindowOf (sceneDuration : Q) : Q :=
  Math_min (75 # 100) (sceneDuration / 3).

(** const fadeIn = clamp(sceneElapsed / fadeWindow, 0, 1);
    const fadeOut = clamp((scene.duration - sceneElapsed) / fadeWindow, 0, 1);
    const textOpacity = Math.min(fadeIn, fadeOut) *)
Definition textOpacityOf (sceneDuration sceneElapsed : Q) : Q :=
  let fadeWindow := fadeWindowOf sceneDuration in
  let fadeIn := clamp (sceneElapsed / fadeWindow) 0 1 in
  let fadeOut := clamp ((sceneDuration - sceneElapsed) / fadeWindow) 0 1 in
  Math_min fadeIn fadeOut.

(** Math.round(progress * 30) *)
Definition readoutSeconds (progress : Q) : Z := Math_round (progress * 30).

(** const progress = clamp(elapsedMs / totalDurationMs, 0, 1) *)
Definition progressOf (props : Props) (elapsedMs : Q) : Q :=
  let totalDurationMs := total props * 1000 in
  clamp (elapsedMs / totalDurationMs) 0 1.

(** function wrapText: the loop over [words], from index [n] on.  It returns
    the [fillText] calls made and the variables [line] and [lineY] at the
    end of the loop. *)
Fixpoint wrapLoop (measure : string -> Q) (x maxWidth lineHeight : Q)
  (words : list string) (n : nat) (line : string) (lineY : Q)
  : list CanvasOp * (string * Q) :=
  match words with
  | [] => ([], (line, lineY))
  | word :: words' =>
      let testLine := (line ++ word ++ " ")%string in
      if ltb maxWidth (measure testLine) && Nat.ltb 0 n then
        let '(ops, final) :=
          wrapLoop measure x maxWidth lineHeight words' (S n)
            (word ++ " ")%string (lineY + lineHeight) in
        (fillText (trim line) x lineY :: ops, final)
      else
        wrapLoop measure x maxWidth lineHeight words' (S n) testLine lineY
  end.

(** function wrapText(context, text, x, y, maxWidth, lineHeight);
    [measure] is [context.measureText(_).width] under the current font. *)
Definition wrapText (measure : string -> Q) (text : string)
  (x y maxWidth lineHeight : Q) : list CanvasOp :=
  let words := split_space text in
  let '(ops, (line, lineY)) :=
    wrapLoop measure x maxWidth lineHeight words 0%nat EmptyString y in
  ops ++ [fillText (trim line) x lineY].

(** The instant, in milliseconds, at which the readout and the elapsed
    whole seconds part when the configured duration is not 30. *)
Definition partingInstant (totalSeconds : Q) : Q :=
  if ltb 30 totalSeconds then 500 else totalSeconds * 1000 / 60.

(** *** The word-level view of [wrapText]

    The variable [line] always holds some words of the text, each followed
    by a space: [joined] of a group of words. *)
Fixpoint joined (group : list string) : string :=
  match group with
  | [] => EmptyString
  | word :: group' => (word ++ " " ++ joined group')%string
  end.

(** The loop of [wrapText] on groups of words instead of strings:
    [current] is the group held in [line]; the result lists the group of
    every line drawn, the last one by the final [fillText]. *)
Fixpoint groupLoop (measure : string -> Q) (maxWidth : Q)
  (words : list string) (n : nat) (current : list string) : list (list string) :=
  match words with
  | [] => [current]
  | word :: words' =>
      let testLine := (joined current ++ word ++ " ")%string in
      if ltb maxWidth (measure testLine) && Nat.ltb 0 n then
        current :: groupLoop measure maxWidth words' (S n) [word]
      else
        groupLoop measure maxWidth words' (S n) (current ++ [word])
  end.

Definition wrapGroups (measure : string -> Q) (maxWidth : Q)
  (words : list string) : list (list string) :=
  groupLoop measure maxWidth words 0%nat [].

(** One [fillText] per group, each a line height below the one before. *)
Fixpoint linesAt (x y lineHeight : Q) (groups : list (list string)) : list CanvasOp :=
  match groups with
  | [] => []
  | group :: groups' =>
      fillText (trim (joined group)) x y
        :: linesAt x (y + lineHeight) lineHeight groups'
  end.

(** Every word after the first of a group was added to a line that, with
    it, still measured at most [maxWidth]. *)
Definition fits (measure : string -> Q) (maxWidth : Q) (group : list string) : Prop :=
  forall before word after,
    group = before ++ word :: after -> before <> [] ->
    measure (joined before ++ word ++ " ")%string <= maxWidth.

(** Every group but the last ends where the next word would have made the
    line measure more than [maxWidth]. *)
Fixpoint breaksForced (measure : string -> Q) (maxWidth : Q)
  (groups : list (list string)) : Prop :=
  match groups with
  | [] => True
  | group :: groups' =>
      match groups' with
      | (word :: _) :: _ =>
          maxWidth < measure (joined group ++ word ++ " ")%string
      | _ => True
      end /\ breaksForced measure maxWidth groups'
  end.

(** A measure proportional to the number of characters. *)
Definition charWidth (s : string) : Q := inject_Z (Z.of_nat (String.length s)) * 10.

End Compositor.
Import Compositor.

(** ** The render engine

    The component's refs, the host's animation-frame queue and clock, the
    [MediaRecorder] of every [renderVideo] call and the promise the call
    returned form the state; the calls of the three notification props, of
    the 2D context and the exceptions that escape a frame callback are
    appended to [trace] in the order they happen. *)

Module Engine.

(** What the host environment answers. *)
Record Host := {
  MEDIA_RECORDER_SUPPORT : bool;        (* typeof window.MediaRecorder !== 'undefined' *)
  isTypeSupported : string -> bool;     (* MediaRecorder.isTypeSupported *)
  getContext2d : bool;                  (* canvas.getContext('2d') is not null *)
  recorderFailure : option string;      (* captureStream / new MediaRecorder throws *)
  measureText : Font -> string -> Q     (* context.measureText(text).width *)
}.

(** MediaRecorder.state, as far as the component uses it. *)
Inductive RecorderState := inactive | recording.

(** A promise: pending, resolved with the chunk sizes of the blob and its
    mime type, or rejected with an [Error] of the given message. *)
Inductive Settlement :=
| Pending
| Fulfilled (chunks : list nat) (mimeType : string)
| Rejected (message : string).

(** One call of [renderVideo]: what its closures hold. *)
Record Render := {
  r_awaiting : bool;                    (* suspended in [await Promise.all(loaders)] *)
  r_images : list Image;                (* [images], captured by [tick] *)
  r_mimeType : string;
  r_recorder : option RecorderState;    (* [mediaRecorder], once constructed *)
  r_stopQueued : bool;                  (* a [stop] event is on its way *)
  r_chunks : list nat;                  (* [chunks], by size *)
  r_trackStops : nat;                   (* times the stream's tracks were stopped *)
  r_promise : Settlement                (* the promise [renderVideo] returned *)
}.

Inductive Event :=
| StatusChange (status : RenderStatus)  (* onStatusChange?.(status) *)
| ProgressValue (value : Q)             (* onProgress?.(value) *)
| ErrorMessage (message : string)       (* onError?.(message) *)
| Canvas (op : CanvasOp)                (* a call on the 2D context *)
| Uncaught (message : string).          (* an exception leaves a frame callback *)

Record State := {
  canvasRef : bool;                     (* canvasRef.current is an element *)
  animationRef : option nat;
  imageCacheRef : option (list Image);
  startTimeRef : Q;
  now : Q;                              (* performance.now() *)
  nextFrameId : nat;                    (* the next requestAnimationFrame handle *)
  frameRequests : list (nat * nat);     (* pending callbacks: handle, render whose [tick] *)
  renders : list Render;
  trace : list Event
}.

Definition set_canvasRef (v : bool) (e : State) : State :=
  {| canvasRef := v; animationRef := animationRef e;
     imageCacheRef := imageCacheRef e; startTimeRef := startTimeRef e;
     now := now e; nextFrameId := nextFrameId e;
     frameRequests := frameRequests e; renders := renders e; trace := trace e |}.

Definition set_animationRef (v : option nat) (e : State) : State :=
  {| canvasRef := canvasRef e; animationRef := v;
     imageCacheRef := imageCacheRef e; startTimeRef := startTimeRef e;
     now := now e; nextFrameId := nextFrameId e;
     frameRequests := frameRequests e; renders := renders e; trace := trace e |}.

Definition set_imageCacheRef (v : option (list Image)) (e : State) : State :=
  {| canvasRef := canvasRef e; animationRef := animationRef e;
     imageCacheRef := v; startTimeRef := startTimeRef e;
     now := now e; nextFrameId := nextFrameId e;
     frameRequests := frameRequests e; renders := renders e; trace := trace e |}.

Definition set_startTimeRef (v : Q) (e : State) : State :=
  {| canvasRef := canvasRef e; animationRef := animationRef e;
     imageCacheRef := imageCacheRef e; startTimeRef := v;
     now := now e; nextFrameId := nextFrameId e;
     frameRequests := frameRequests e; renders := renders e; trace := trace e |}.

Definition set_now (v : Q) (e : State) : State :=
  {| canvasRef := canvasRef e; animationRef := animationRef e;
     imageCacheRef := imageCacheRef e; startTimeRef := startTimeRef e;
     now := v; nextFrameId := nextFrameId e;
     frameRequests := frameRequests e; renders := renders e; trace := trace e |}.

Definition set_frames (next : nat) (q : list (nat * nat)) (e : State) : State :=
  {| canvasRef := canvasRef e; animationRef := animationRef e;
     imageCacheRef := imageCacheRef e; startTimeRef := startTimeRef e;
     now := now e; nextFrameId := next;
     frameRequests := q; renders := renders e; trace := trace e |}.

Definition set_renders (v : list Render) (e : State) : State :=
  {| canvasRef := canvasRef e; animationRef := animationRef e;
     imageCacheRef := imageCacheRef e; startTimeRef := startTimeRef e;
     now := now e; nextFrameId := nextFrameId e;
     frameRequests := frameRequests e; renders := v; trace := trace e |}.

Definition emit (ev : Event) (e : State) : State :=
  {| canvasRef := canvasRef e; animationRef := animationRef e;
     imageCacheRef := imageCacheRef e; startTimeRef := startTimeRef e;
     now := now e; nextFrameId := nextFrameId e;
     frameRequests := frameRequests e; renders := renders e;
     trace := trace e ++ [ev] |}.

(** The render [id], changed by [f]. *)
Fixpoint alter {A : Type} (f : A -> A) (id : nat) (l : list A) : list A :=
  match l, id with
  | [], _ => []
  | r :: l', O => f r :: l'
  | r :: l', S id' => r :: alter f id' l'
  end.

Definition emptyRender : Render :=
  {| r_awaiting := false; r_images := []; r_mimeType := EmptyString;
     r_recorder := None; r_stopQueued := false; r_chunks := [];
     r_trackStops := 0; r_promise := Pending |}.

Definition with_awaiting (v : bool) (r : Render) : Render :=
  {| r_awaiting := v; r_images := r_images r; r_mimeType := r_mimeType r;
     r_recorder := r_recorder r; r_stopQueued := r_stopQueued r;
     r_chunks := r_chunks r; r_trackStops := r_trackStops r;
     r_promise := r_promise r |}.

Definition with_recorder (images : list Image) (mimeType : string)
  (st : RecorderState) (r : Render) : Render :=
  {| r_awaiting := r_awaiting r; r_images := images; r_mimeType := mimeType;
     r_recorder := Some st; r_stopQueued := r_stopQueued r;
     r_chunks := r_chunks r; r_trackStops := r_trackStops r;
     r_promise := r_promise r |}.

Definition with_state (st : RecorderState) (stopQueued : bool) (r : Render) : Render :=
  {| r_awaiting := r_awaiting r; r_images := r_images r;
     r_mimeType := r_mimeType r;
     r_recorder := match r_recorder r with Some _ => Some st | None => None end;
     r_stopQueued := stopQueued;
     r_chunks := r_chunks r; r_trackStops := r_trackStops r;
     r_promise := r_promise r |}.

Definition with_chunk (size : nat) (r : Render) : Render :=
  {| r_awaiting := r_awaiting r; r_images := r_images r;
     r_mimeType := r_mimeType r; r_recorder := r_recorder r;
     r_stopQueued := r_stopQueued r;
     r_chunks := r_chunks r ++ [size]; r_trackStops := r_trackStops r;
     r_promise := r_promise r |}.

Definition with_trackStop (r : Render) : Render :=
  {| r_awaiting := r_awaiting r; r_images := r_images r;
     r_mimeType := r_mimeType r; r_recorder := r_recorder r;
     r_stopQueued := r_stopQueued r;
     r_chunks := r_chunks r; r_trackStops := S (r_trackStops r);
     r_promise := r_promise r |}.

(** A promise settles once: [resolve] and [reject] on a settled promise do
    nothing. *)
Definition with_settlement (s : Settlement) (r : Render) : Render :=
  {| r_awaiting := r_awaiting r; r_images := r_images r;
     r_mimeType := r_mimeType r; r_recorder := r_recorder r;
     r_stopQueued := r_stopQueued r;
     r_chunks := r_chunks r; r_trackStops := r_trackStops r;
     r_promise := match r_promise r with Pending => s | settled => settled end |}.

(** *** A state monad with exceptions *)

Inductive Outcome (A : Type) :=
| Ok (a : A)
| Throw (message : string).
Arguments Ok {A} a.
Arguments Throw {A} message.

Definition M (A : Type) : Type := State -> Outcome A * State.

Definition ret {A : Type} (a : A) : M A := fun e => (Ok a, e).

Definition bind {A B : Type} (m : M A) (k : A -> M B) : M B :=
  fun e => match m e with
           | (Ok a, e') => k a e'
           | (Throw msg, e') => (Throw msg, e')
           end.

Definition throw {A : Type} (message : string) : M A := fun e => (Throw message, e).

Definition try_catch {A : Type} (m : M A) (handler : string -> M A) : M A :=
  fun e => match m e with
           | (Ok a, e') => (Ok a, e')
           | (Throw msg, e') => handler msg e'
           end.

Definition get : M State := fun e => (Ok e, e).

Definition modify (f : State -> State) : M unit := fun e => (Ok tt, f e).

Notation "x <- c1 ;; c2" := (bind c1 (fun x => c2))
  (at level 61, c1 at next level, right associativity).
Notation "c1 ;; c2" := (bind c1 (fun _ => c2))
  (at level 61, right associativity).

(** Reading a property of a value that may be [undefined]. *)
Definition deref {A : Type} (o : option A) (property : string) : M A :=
  match o with
  | Some a => ret a
  | None =>
      throw ("Cannot read properties of undefined (reading '" ++ property ++ "')")
  end.

Fixpoint each {A : Type} (f : A -> M unit) (l : list A) : M unit :=
  match l with
  | [] => ret tt
  | a :: l' => f a ;; each f l'
  end.

(** *** The component *)

Section Component.

Variable props : Props.
Variable host : Host.

Definition notifyStatus (status : RenderStatus) : M unit :=
  modify (emit (StatusChange status)).

Definition notifyProgress (value : Q) : M unit :=
  modify (emit (ProgressValue value)).

Definition onError (message : string) : M unit :=
  modify (emit (ErrorMessage message)).

Definition ctx (op : CanvasOp) : M unit := modify (emit (Canvas op)).

(** The host's cancelAnimationFrame(handle) and requestAnimationFrame(tick);
    a pending callback is kept as the render whose [tick] it is. *)
Definition cancelAnimationFrame (handle : nat) : M unit :=
  modify (fun e =>
    set_frames (nextFrameId e)
      (filter (fun request => negb (Nat.eqb (fst request) handle))
         (frameRequests e)) e).

Definition requestAnimationFrame (id : nat) : M nat :=
  fun e =>
    (Ok (nextFrameId e),
     set_frames (S (nextFrameId e)) (frameRequests e ++ [(nextFrameId e, id)]) e).

(** const cancelAnimation = () => {
      if (animationRef.current) {
        cancelAnimationFrame(animationRef.current);
        animationRef.current = undefined; } } *)
Definition cancelAnimation : M unit :=
  e <- get ;;
  match animationRef e with
  | Some handle =>
      if Nat.eqb handle 0 then ret tt
      else cancelAnimationFrame handle ;; modify (set_animationRef None)
  | None => ret tt
  end.

(** [drawFrame], from [ctx.filter = ...] to [ctx.restore()]: the calls on
    the context once [scene] and [image] are known. *)
Definition paint (scene : SceneConfig) (image : Image)
  (sceneElapsed progress : Q) : list CanvasOp :=
  let width := res_width (resolution props) in
  let height := res_height (resolution props) in
  let sceneProgress := clamp (sceneElapsed / duration scene) 0 1 in
  let zoom := zoomOf sceneProgress in
  let baseScale :=
    Math_max (width / img_width image) (height / img_height image) * zoom in
  let drawWidth := img_width image * baseScale in
  let drawHeight := img_height image * baseScale in
  let drawX := width / 2 - drawWidth / 2 in
  let drawY := height / 2 - drawHeight / 2 in
  let textOpacity := textOpacityOf (duration scene) sceneElapsed in
  let font30 := {| px := 30; family := "Inter, sans-serif" |} in
  let font22 := {| px := 22; family := "Inter, sans-serif" |} in
  [ setFilter "brightness(1.05) saturate(1.15)";
    drawImage image drawX drawY drawWidth drawHeight;
    setFilter "none";
    setFillStyle
      (LinearGradient 0 (height * (45 # 100)) 0 height
         [ (0, rgba 3 7 18 (5 # 100));
           (65 # 100, rgba 3 7 18 (65 # 100));
           (1, rgba 3 7 18 (92 # 100)) ]);
    fillRect 0 0 width height;
    setFillStyle (Solid (rgba 255 255 255 (12 # 100)));
    fillRect 60 60 (width - 120) (height - 120);
    setStrokeStyle (Solid (rgba 250 204 21 (45 # 100)));
    setLineWidth 2;
    strokeRect 60 60 (width - 120) (height - 120);
    setFillStyle (Solid (rgba 250 204 21 ((8 # 10) * textOpacity)));
    setFont {| px := 48; family := "Bebas Neue, Inter, system-ui" |};
    setTextBaseline "alphabetic";
    fillText "Visit Dubai" 110 (height - 220);
    setFillStyle (Solid (rgba 255 255 255 ((92 # 100) * textOpacity)));
    setFont {| px := 72; family := "Playfair Display, Inter, serif" |};
    fillText (title scene) 110 (height - 150);
    setFillStyle (Solid (rgba 241 245 249 ((75 # 100) * textOpacity)));
    setFont font30 ]
  ++ wrapText (measureText host font30) (subtitle scene)
       110 (height - 100) (width - 220) 40
  ++ [ setFillStyle (Solid (rgba 148 163 184 (6 # 10)));
       setFont font22 ]
  ++ wrapText (measureText host font22) (description scene)
       110 (height - 60) (width - 220) 30
  ++ [ setFillStyle (Solid (rgba 255 255 255 (12 # 100)));
       fillRect 110 (height - 28) (width - 220) 8;
       setFillStyle (Solid (rgba 250 204 21 (8 # 10)));
       fillRect 110 (height - 28) ((width - 220) * progress) 8;
       setFillStyle (Solid (rgba 255 255 255 (65 # 100)));
       setFont {| px := 20; family := "Inter, sans-serif" |};
       fillText (string_of_Z (readoutSeconds progress) ++ " sec")%string
         (width - 150) (height - 34);
       restore ].

(** const drawFrame = (ctx, images, elapsedMs, options: { onComplete }) *)
Definition drawFrame (images : list Image) (elapsedMs : Q)
  (onComplete : M unit) : M unit :=
  let width := res_width (resolution props) in
  let height := res_height (resolution props) in
  let totalDurationMs := total props * 1000 in
  let progress := progressOf props elapsedMs in
  notifyProgress progress ;;
  if geb elapsedMs totalDurationMs then onComplete
  else
    ctx save ;;
    ctx (clearRect 0 0 width height) ;;
    let elapsedSeconds := elapsedMs / 1000 in
    let '(sceneIndex, accumulated) := resolveScene (scenes props) elapsedSeconds in
    let sceneElapsed := elapsedSeconds - accumulated in
    scene <- deref (js_get (scenes props) sceneIndex) "duration" ;;
    image <- deref (js_get images sceneIndex) "width" ;;
    each ctx (paint scene image sceneElapsed progress).

Definition renderOf (id : nat) (e : State) : Render :=
  nth id (renders e) emptyRender.

Definition update (id : nat) (f : Render -> Render) : M unit :=
  modify (fun e => set_renders (alter f id (renders e)) e).

(** The callback [renderVideo] hands to [startAnimation]:
    () => { if (mediaRecorder.state !== 'inactive') mediaRecorder.stop(); }
    [stop()] makes the recorder inactive at once and queues its [stop]
    event. *)
Definition stopRecorder (id : nat) : M unit :=
  e <- get ;;
  match r_recorder (renderOf id e) with
  | Some recording => update id (with_state inactive true)
  | _ => ret tt
  end.

(** [tick], the frame callback of the render [id]. *)
Definition tick (id : nat) : M unit :=
  e <- get ;;
  if negb (canvasRef e) then ret tt
  else
    let elapsedMs := now e - startTimeRef e in
    drawFrame (r_images (renderOf id e)) elapsedMs
      (stopRecorder id ;;
       cancelAnimation ;;
       notifyStatus complete ;;
       notifyProgress 1) ;;
    handle <- requestAnimationFrame id ;;
    modify (set_animationRef (Some handle)).

(** const startAnimation = (context, images, onComplete) *)
Definition startAnimation (id : nat) : M unit :=
  cancelAnimation ;;
  e <- get ;;
  modify (set_startTimeRef (now e)) ;;
  notifyProgress 0 ;;
  notifyStatus rendering ;;
  handle <- requestAnimationFrame id ;;
  modify (set_animationRef (Some handle)).

(** function buildMimeType() *)
Definition buildMimeType : string :=
  if negb (MEDIA_RECORDER_SUPPORT host) then "video/webm"
  else if isTypeSupported host "video/webm;codecs=vp9" then "video/webm;codecs=vp9"
  else if isTypeSupported host "video/webm;codecs=vp8" then "video/webm;codecs=vp8"
  else if isTypeSupported host "video/webm;codecs=h264" then "video/webm;codecs=h264"
  else "video/webm".

(** How [Promise.all(loaders)] settles. *)
Inductive LoadResult :=
| Loaded (images : list Image)
| LoadFailed (image : string).

(** [loadImages] up to its [await]: the cache, or nothing yet. *)
Definition loadImages : M (option (list Image)) :=
  e <- get ;;
  match imageCacheRef e with
  | Some images => ret (Some images)
  | None => notifyStatus loading_assets ;; ret None
  end.

(** [loadImages] after its [await]. *)
Definition loadImages_settled (r : LoadResult) : M (list Image) :=
  match r with
  | Loaded images => modify (set_imageCacheRef (Some images)) ;; ret images
  | LoadFailed image => throw ("Failed to load image " ++ image)
  end.

(** The [try] block of [renderVideo] after [await loadImages()], up to
    [await resultPromise]. *)
Definition capture (id : nat) (images : list Image) : M unit :=
  e <- get ;;
  if negb (canvasRef e)
  then throw "Cannot read properties of null (reading 'getContext')"
  else if negb (getContext2d host) then throw "Unable to access canvas context."
  else
    let mimeType := buildMimeType in
    match recorderFailure host with
    | Some message => throw message
    | None =>
        update id (with_recorder images mimeType inactive) ;;
        update id (with_state recording false) ;;
        startAnimation id
    end.

(** The [catch] block of [renderVideo]; every value thrown in this
    component is an [Error], so [message] is its message. *)
Definition catch (message : string) : M unit :=
  notifyStatus error ;;
  onError message ;;
  throw message.

(** An [async] function body run for the promise of render [id]: an
    exception that leaves the body rejects the promise. *)
Definition async (id : nat) (body : M unit) (e : State) : State :=
  match body e with
  | (Ok _, e') => e'
  | (Throw message, e') =>
      set_renders (alter (with_settlement (Rejected message)) id (renders e')) e'
  end.

(** renderVideo: async () => { ... }, up to its first suspension.  With the
    images cached, [await loadImages()] resumes before any other event of
    the host can happen, so the body goes on at once. *)
Definition renderVideo (id : nat) : M unit :=
  e <- get ;;
  (if negb (canvasRef e) then throw "Canvas is not ready yet." else ret tt) ;;
  (if negb (MEDIA_RECORDER_SUPPORT host)
   then throw "MediaRecorder API is not supported in this browser."
   else ret tt) ;;
  try_catch
    (cached <- loadImages ;;
     match cached with
     | Some images => capture id images
     | None => update id (with_awaiting true)
     end)
    catch.

(** renderVideo, resumed when [Promise.all(loaders)] settles. *)
Definition renderVideo_resumed (id : nat) (r : LoadResult) : M unit :=
  update id (with_awaiting false) ;;
  try_catch (images <- loadImages_settled r ;; capture id images) catch.

(** mediaRecorder.ondataavailable *)
Definition ondataavailable (id : nat) (size : nat) : M unit :=
  if Nat.ltb 0 size then update id (with_chunk size) else ret tt.

(** mediaRecorder.onerror: the handler rejects [resultPromise]; when that
    promise was pending, [await resultPromise] throws inside the [try] of
    [renderVideo] and its [catch] block runs. *)
Definition onerror (id : nat) (recorderError : option string) (e : State) : State :=
  let handler :=
    cancelAnimation ;;
    update id with_trackStop ;;
    notifyStatus error ;;
    onError (match recorderError with
             | Some message => message
             | None => "Recording error encountered."%string
             end) in
  let rejection : string :=
    match recorderError with
    | Some message => message
    | None => "Recording failed."%string
    end in
  let e' := snd (handler e) in
  match r_promise (renderOf id e') with
  | Pending => async id (catch rejection) e'
  | _ => e'
  end.

(** mediaRecorder.onstop *)
Definition onstop (id : nat) : M unit :=
  update id with_trackStop ;;
  e <- get ;;
  update id
    (with_settlement
       (Fulfilled (r_chunks (renderOf id e)) (r_mimeType (renderOf id e)))).

(** *** The event loop *)

Inductive Input :=
| CallRenderVideo                                   (* handle.renderVideo() *)
| ImagesSettled (id : nat) (r : LoadResult)         (* Promise.all settles *)
| AnimationFrame (time : Q)                         (* the host runs the frame callbacks *)
| DataAvailable (id : nat) (size : nat)             (* recorder event *)
| RecorderError (id : nat) (recorderError : option string)
| RecorderStop (id : nat)                           (* the queued [stop] event *)
| Unmount.                                          (* effect cleanup, ref detached *)

(** One pending callback of the frame being run: skipped when it has been
    cancelled meanwhile. *)
Definition runCallback (e : State) (request : nat * nat) : State :=
  if existsb (fun r => Nat.eqb (fst r) (fst request)) (frameRequests e) then
    match (cancelAnimationFrame (fst request) ;; tick (snd request)) e with
    | (Ok _, e') => e'
    | (Throw message, e') => emit (Uncaught message) e'
    end
  else e.

Definition animationFrame (time : Q) (e : State) : State :=
  let e := set_now (Math_max (now e) time) e in
  fold_left runCallback (frameRequests e) e.

Definition step (e : State) (i : Input) : State :=
  match i with
  | CallRenderVideo =>
      let id := List.length (renders e) in
      async id (renderVideo id) (set_renders (renders e ++ [emptyRender]) e)
  | ImagesSettled id r =>
      if r_awaiting (renderOf id e) then async id (renderVideo_resumed id r) e
      else e
  | AnimationFrame time => animationFrame time e
  | DataAvailable id size =>
      match r_recorder (renderOf id e) with
      | Some _ => snd (ondataavailable id size e)
      | None => e
      end
  | RecorderError id recorderError =>
      (* the recorder is inactive when its error event is fired *)
      match r_recorder (renderOf id e) with
      | Some _ => onerror id recorderError (snd (update id (with_state inactive false) e))
      | None => e
      end
  | RecorderStop id =>
      if r_stopQueued (renderOf id e)
      then snd ((update id (with_state inactive false) ;; onstop id) e)
      else e
  | Unmount => set_canvasRef false (snd (cancelAnimation e))
  end.

Definition run (e : State) (inputs : list Input) : State :=
  fold_left step inputs e.

End Component.

(** The component after mounting, before any call. *)
Definition mounted : State :=
  {| canvasRef := true; animationRef := None; imageCacheRef := None;
     startTimeRef := 0; now := 0; nextFrameId := 1; frameRequests := [];
     renders := []; trace := [] |}.

(** The component whose canvas element is not there (yet, or any more). *)
Definition detached : State := set_canvasRef false mounted.

End Engine.

(** ** The configuration of the application (components/VideoStudio.tsx) *)

Module Studio.

(** const VIDEO_DURATION_SECONDS = 30; const FPS = 30; *)
Definition VIDEO_DURATION_SECONDS : Q := 30.
Definition FPS : Q := 30.

(** const SCENES: SceneConfig[] *)
Definition SCENES : list SceneConfig :=
  [ {| title := "Sunrise at Burj Khalifa";
       subtitle := "Witness the city ignite in gold from the tallest tower on Earth.";
       description := "Capture breathtaking vistas as dawn paints the Dubai skyline in amber hues.";
       image := "/assets/burj-khalifa.jpg"; start := 0; duration := 6 |};
    {| title := "Arabian Desert Dunes";
       subtitle := "Ride the winds across endless dunes bathed in desert light.";
       description := "Feel the adrenaline of a desert safari, camel treks, and sandboarding adventures.";
       image := "/assets/desert-safari.jpg"; start := 6; duration := 6 |};
    {| title := "Dubai Creek Heritage";
       subtitle := "Sail past souks and wind towers where tradition meets modern flair.";
       description := "Glide along the creek on an abra as spices and perfumes fill the evening air.";
       image := "/assets/dubai-creek.jpg"; start := 12; duration := 6 |};
    {| title := "Iconic Palm Jumeirah";
       subtitle := "Discover man-made marvels framed by turquoise Arabian Gulf waters.";
       description := "Luxury resorts, skydiving thrills, and oceanside dining define the Palm experience.";
       image := "/assets/palm-jumeirah.jpg"; start := 18; duration := 6 |};
    {| title := "Dubai Marina Nights";
       subtitle := "Immerse yourself in neon reflections and waterfront glamour.";
       description := "Indulge in rooftop lounges, yacht cruises, and Michelin-star cuisine after dark.";
       image := "/assets/dubai-marina.jpg"; start := 24; duration := 6 |} ].

(** The props [VideoStudio] passes to [VideoCanvas]; no [resolution]. *)
Definition studioProps : Props :=
  {| scenes := SCENES; total := VIDEO_DURATION_SECONDS; fps := FPS;
     resolution := DEFAULT_RESOLUTION |}.

End Studio.
Import Studio.

(** ** Sample hosts and configurations *)

Module Scenario.
Import Engine.

(** A browser with [MediaRecorder], every codec, and a working canvas. *)
Definition sampleHost : Host :=
  {| MEDIA_RECORDER_SUPPORT := true;
     isTypeSupported := fun _ => true;
     getContext2d := true;
     recorderFailure := None;
     measureText := fun _ => charWidth |}.

(** A browser without [MediaRecorder]. *)
Definition hostWithoutRecorder : Host :=
  {| MEDIA_RECORDER_SUPPORT := false;
     isTypeSupported := fun _ => false;
     getContext2d := true;
     recorderFailure := None;
     measureText := fun _ => charWidth |}.

(** One decoded 1920 by 1080 image per scene. *)
Definition imagesOf (scenes : list SceneConfig) : list Image :=
  map (fun scene => {| src := image scene; img_width := 1920; img_height := 1080 |})
    scenes.

Definition sampleImages : list Image := imagesOf SCENES.

(** The scenes of the application under a configured duration of 60 s. *)
Definition longProps : Props :=
  {| scenes := SCENES; total := 60; fps := FPS; resolution := DEFAULT_RESOLUTION |}.

(** An empty scene list under the configured duration of the application. *)
Definition emptyProps : Props :=
  {| scenes := []; total := VIDEO_DURATION_SECONDS; fps := FPS;
     resolution := DEFAULT_RESOLUTION |}.

(** [drawFrame] at [elapsedMs] does nothing but report progress and call
    [onComplete]. *)
Definition signalsCompletion (props : Props) (host : Host)
  (images : list Image) (elapsedMs : Q) : Prop :=
  forall (onComplete : M unit) (e : State),
    drawFrame props host images elapsedMs onComplete e
    = (notifyProgress (progressOf props elapsedMs) ;; onComplete) e.

(** [drawFrame] at [elapsedMs] does not call [onComplete]. *)
Definition skipsCompletion (props : Props) (host : Host)
  (images : list Image) (elapsedMs : Q) : Prop :=
  forall (onComplete : M unit) (e : State),
    drawFrame props host images elapsedMs onComplete e
    = drawFrame props host images elapsedMs (ret tt) e.

Definition isCanvas (ev : Event) : bool :=
  match ev with Canvas _ => true | _ => false end.

Definition isErrorMessage (ev : Event) : bool :=
  match ev with ErrorMessage _ => true | _ => false end.

Definition isStatus (status : RenderStatus) (ev : Event) : bool :=
  match ev, status with
  | StatusChange idle, idle
  | StatusChange loading_assets, loading_assets
  | StatusChange rendering, rendering
  | StatusChange complete, complete
  | StatusChange error, error => true
  | _, _ => false
  end.

(** The application's render, started and one second into its animation:
    render 0 is in flight. *)
Definition started : State :=
  run studioProps sampleHost mounted
    [CallRenderVideo; ImagesSettled 0 (Loaded sampleImages)].

Definition inFlight : State :=
  step studioProps sampleHost started (AnimationFrame 1000).

(** A render is in flight in [e]: its recorder records, its promise is
    pending and its frame callback is the pending one. *)
Definition rendersInFlight (id : nat) (e : State) : Prop :=
  r_recorder (renderOf id e) = Some recording /\
  r_promise (renderOf id e) = Pending /\
  exists handle, animationRef e = Some handle /\ In (handle, id) (frameRequests e).

(** A call of [renderVideo] in [e] is rejected and changes nothing of the
    scheduling and of the earlier renders. *)
Definition rejectsAndPreserves (props : Props) (host : Host) (e : State) : Prop :=
  let id := List.length (renders e) in
  let e' := step props host e CallRenderVideo in
  (exists message, r_promise (renderOf id e') = Rejected message) /\
  frameRequests e' = frameRequests e /\
  animationRef e' = animationRef e /\
  startTimeRef e' = startTimeRef e /\
  forall earlier, (earlier < id)%nat -> renderOf earlier e' = renderOf earlier e.

(** The events a step added to the trace. *)
Definition added (before after : State) : list Event :=
  skipn (List.length (trace before)) (trace after).

End Scenario.
Import Scenario.

(** ** Notions used by the further properties *)

Module Laws.
Import Engine.

(** The state after the given notifications and context calls. *)
Definition emits (events : list Event) (e : State) : State :=
  fold_left (fun e' ev => emit ev e') events e.

(** The codecs [buildMimeType] asks for, in its order of preference. *)
Definition preferredTypes : list string :=
  ["video/webm;codecs=vp9"; "video/webm;codecs=vp8"; "video/webm;codecs=h264"]%string.

(** At most one frame callback is pending, [animationRef] holds its handle,
    and handles are positive and below the next one. *)
Definition atMostOnePending (e : State) : Prop :=
  (1 <= nextFrameId e)%nat /\
  (frameRequests e = [] \/
   exists handle id,
     frameRequests e = [(handle, id)] /\
     animationRef e = Some handle /\
     (0 < handle < nextFrameId e)%nat).

(** The component is unmounted and nothing is pending. *)
Definition tornDown (e : State) : Prop :=
  canvasRef e = false /\ frameRequests e = [].

(** The context calls made so far. *)
Definition canvasCalls (e : State) : list Event := filter isCanvas (trace e).

(** Every promise settled in [e] is settled the same way in [e']. *)
Definition settledKept (e e' : State) : Prop :=
  forall id,
    r_promise (renderOf id e) <> Pending ->
    r_promise (renderOf id e') = r_promise (renderOf id e).

(** A property of the state that an operation keeps. *)
Definition invariant {A : Type} (P : State -> Prop) (m : M A) : Prop :=
  forall e, P e -> P (snd (m e)).




(** The inputs that deliver recorded segments of the given sizes to the
    recorder of render [id]. *)
Definition segments (id : nat) (sizes : list nat) : list Input :=
  map (DataAvailable id) sizes.

(** A change of a render that leaves a settled promise as it is. *)
Definition keepsSettled (f : Render -> Render) : Prop :=
  forall r, r_promise r <> Pending -> r_promise (f r) = r_promise r.

(** The image cache is filled. *)
Definition cacheFilled (e : State) : Prop := imageCacheRef e <> None.

(** The notifications of an operation other than the announcement of
    loading: any event but [loading-assets], a progress being in [0, 1]. *)
Definition ordinaryEvent (ev : Event) : Prop :=
  match ev with
  | ProgressValue value => 0 <= value /\ value <= 1
  | StatusChange loading_assets => False
  | _ => True
  end.

(** How often loading has been announced. *)
Definition loadingAnnouncements (e : State) : nat :=
  List.length (filter (isStatus loading_assets) (trace e)).

End Laws.
Import Laws.

Import Engine.

(** ** Proof automation *)

(** Unfolding of the monadic operations of the component. *)
Ltac run_monad :=
  cbv beta iota delta
    [stopRecorder cancelAnimation notifyProgress notifyStatus onError ctx update
     cancelAnimationFrame requestAnimationFrame startAnimation capture catch
     loadImages loadImages_settled renderVideo renderVideo_resumed async
     onstop ondataavailable try_catch throw modify bind get ret renderOf].

(** The same, leaving [capture], [startAnimation] and [cancelAnimation]
    folded. *)
Ltac run_shallow :=
  cbv beta iota delta
    [renderVideo renderVideo_resumed loadImages loadImages_settled catch
     notifyStatus onError update ondataavailable onstop try_catch throw modify
     bind get ret].

(** Projections of updated states and renders. *)
Ltac fields :=
  cbn [canvasRef animationRef imageCacheRef startTimeRef now nextFrameId
       frameRequests renders trace
       set_canvasRef set_animationRef set_imageCacheRef set_startTimeRef
       set_now set_frames set_renders emit negb fst snd
       r_awaiting r_images r_mimeType r_recorder r_stopQueued r_chunks
       r_trackStops r_promise
       emptyRender with_awaiting with_recorder with_state with_chunk
       with_trackStop with_settlement].

Ltac conjuncts :=
  repeat match goal with |- _ /\ _ => split end.

Ltac trace_done :=
  cbn; rewrite <- ?app_assoc; cbn;
  repeat split; try reflexivity;
  try (apply in_or_app; right; left; reflexivity).

(** * Properties *)

(** ** Numbers *)

Lemma Math_min_spec a b :
  (a <= b /\ Math_min a b = a) \/ (b < a /\ Math_min a b = b).
Proof.
  unfold Math_min. destruct (Qle_bool a b) eqn:E.
  - left. split; [now apply Qle_bool_iff | reflexivity].
  - right. split; [| reflexivity].
    apply Qnot_le_lt. intro H. apply Qle_bool_iff in H. congruence.
Qed.

Lemma Math_max_spec a b :
  (a <= b /\ Math_max a b = b) \/ (b < a /\ Math_max a b = a).
Proof.
  unfold Math_max. destruct (Qle_bool a b) eqn:E.
  - left. split; [now apply Qle_bool_iff | reflexivity].
  - right. split; [| reflexivity].
    apply Qnot_le_lt. intro H. apply Qle_bool_iff in H. congruence.
Qed.

Lemma geb_true a b : geb a b = true <-> b <= a.
Proof. unfold geb. apply Qle_bool_iff. Qed.

Lemma geb_false a b : geb a b = false <-> a < b.
Proof.
  unfold geb. split.
  - intro E. apply Qnot_le_lt. intro H. apply Qle_bool_iff in H. congruence.
  - intro H. destruct (Qle_bool b a) eqn:E; [| reflexivity].
    apply Qle_bool_iff in E. lra.
Qed.

Lemma ltb_true a b : ltb a b = true <-> a < b.
Proof. unfold ltb. rewrite negb_true_iff. apply geb_false. Qed.

Lemma ltb_false a b : ltb a b = false <-> b <= a.
Proof. unfold ltb. rewrite negb_false_iff. apply Qle_bool_iff. Qed.

(** [clamp] returns its argument inside the interval and the nearer bound
    outside of it. *)
Lemma clamp_cases v lo hi :
  lo <= hi ->
  (v <= lo /\ clamp v lo hi = lo) \/
  (lo < v <= hi /\ clamp v lo hi = v) \/
  (hi < v /\ clamp v lo hi = hi).
Proof.
  intros Hlh. unfold clamp.
  destruct (Math_max_spec v lo) as [[H1 ->] | [H1 ->]];
    [destruct (Math_min_spec lo hi) as [[H2 ->] | [H2 ->]]
    |destruct (Math_min_spec v hi) as [[H2 ->] | [H2 ->]]].
  - left. split; [assumption | reflexivity].
  - lra.
  - right; left. split; [lra | reflexivity].
  - right; right. split; [lra | reflexivity].
Qed.

(** ** Timeline *)

Lemma sceneLoop_finds rest : forall i t acc dflt,
  Forall (fun s => 0 < duration s) rest ->
  acc <= t -> t < acc + sumDurations rest ->
  exists (k : nat) (scene : SceneConfig),
    nth_error rest k = Some scene /\
    fst (sceneLoop rest i t acc dflt) = (i + Z.of_nat k)%Z /\
    snd (sceneLoop rest i t acc dflt) == acc + sumDurations (firstn k rest) /\
    snd (sceneLoop rest i t acc dflt) <= t /\
    t < snd (sceneLoop rest i t acc dflt) + duration scene.
Proof.
  induction rest as [| s rest IH]; intros i t acc dflt Hpos Hlo Hhi.
  - simpl in Hhi. lra.
  - simpl in Hhi. inversion Hpos as [| ? ? Hs Hrest]; subst.
    simpl. destruct (geb t acc && ltb t (acc + duration s)) eqn:E.
    + apply andb_true_iff in E. destruct E as [_ E2]. apply ltb_true in E2.
      exists 0%nat, s. simpl. repeat split; try lra. lia.
    + apply andb_false_iff in E. destruct E as [E | E].
      * apply geb_false in E. lra.
      * apply ltb_false in E.
        destruct (IH (i + 1)%Z t (acc + duration s) dflt Hrest E)
          as (k & sc & Hnth & Hfst & Hsnd & Hle & Hlt); [lra |].
        exists (S k), sc. simpl. repeat split; try assumption.
        -- rewrite Hfst. lia.
        -- rewrite Hsnd. lra.
Qed.

Lemma sumDurations_firstn_nonneg l :
  Forall (fun s => 0 < duration s) l ->
  forall k, 0 <= sumDurations (firstn k l).
Proof.
  induction 1 as [| s l Hs _ IH]; intros [| k]; simpl; try lra.
  specialize (IH k). lra.
Qed.

Lemma cumulativeStart_next scenes : forall i scene,
  nth_error scenes i = Some scene ->
  cumulativeStart scenes (S i) == cumulativeStart scenes i + duration scene.
Proof.
  unfold cumulativeStart.
  induction scenes as [| s scenes IH]; intros [| i] scene H; simpl in *;
    try discriminate.
  - injection H as ->. destruct scenes; simpl; lra.
  - specialize (IH i scene H). simpl in IH. rewrite IH. lra.
Qed.

Lemma cumulativeStart_mono scenes :
  Forall (fun s => 0 < duration s) scenes ->
  forall i j, (i <= j)%nat -> cumulativeStart scenes i <= cumulativeStart scenes j.
Proof.
  unfold cumulativeStart. induction 1 as [| s l Hs Hl IH]; intros i j Hij.
  - rewrite !firstn_nil. lra.
  - destruct i, j; simpl; try lia; try lra.
    + pose proof (sumDurations_firstn_nonneg l Hl j) as Hn. lra.
    + specialize (IH i j ltac:(lia)). lra.
Qed.

(** Two windows that contain the same instant are the same window. *)
Lemma inWindow_unique scenes t i j :
  Forall (fun s => 0 < duration s) scenes ->
  inWindow scenes i t -> inWindow scenes j t -> i = j.
Proof.
  intros Hpos (si & Hi & Hi1 & Hi2) (sj & Hj & Hj1 & Hj2).
  destruct (Nat.lt_trichotomy i j) as [Hlt | [Heq | Hgt]]; [| assumption |].
  - pose proof (cumulativeStart_mono scenes Hpos (S i) j Hlt) as Hm.
    rewrite (cumulativeStart_next scenes i si Hi) in Hm. lra.
  - pose proof (cumulativeStart_mono scenes Hpos (S j) i Hgt) as Hm.
    rewrite (cumulativeStart_next scenes j sj Hj) in Hm. lra.
Qed.

(** C1: for a non-empty scene list with positive durations and an elapsed
    time [t] with [0 <= t < sum of the durations], the scene-selection loop
    of [drawFrame] leaves an index [i] of the list whose window
    [cumulativeStart, cumulativeStart + duration) contains [t]; no other
    index has such a window, and [sceneElapsed] is [t - cumulativeStart].
    With the five six-second scenes of the application and [t = 6] the loop
    selects index 1 and [sceneElapsed] is 0. *)
Theorem resolver_selects_the_window :
  (forall (scenes : list SceneConfig) (t : Q),
      scenes <> [] ->
      Forall (fun s => 0 < duration s) scenes ->
      0 <= t -> t < sumDurations scenes ->
      exists i : nat,
        fst (resolveScene scenes t) = Z.of_nat i /\
        snd (resolveScene scenes t) == cumulativeStart scenes i /\
        inWindow scenes i t /\
        (forall j, inWindow scenes j t -> j = i) /\
        sceneElapsedOf scenes t == t - cumulativeStart scenes i)
  /\ (fst (resolveScene SCENES 6) = 1%Z /\ sceneElapsedOf SCENES 6 == 0).
Proof.
  split.
  - intros scenes t _ Hpos H0 Ht. unfold sceneElapsedOf, resolveScene.
    destruct (sceneLoop_finds scenes 0%Z t 0
                (Z.of_nat (List.length scenes) - 1)%Z Hpos H0)
      as (k & sc & Hnth & Hfst & Hsnd & Hle & Hlt); [lra |].
    assert (Hcs : snd (sceneLoop scenes 0 t 0 (Z.of_nat (List.length scenes) - 1))
                  == cumulativeStart scenes k)
      by (rewrite Hsnd; unfold cumulativeStart; lra).
    assert (Hwin : inWindow scenes k t).
    { exists sc. rewrite <- Hcs. repeat split; assumption. }
    exists k. repeat split.
    + rewrite Hfst. lia.
    + exact Hcs.
    + exact Hwin.
    + intros j Hj. exact (inWindow_unique scenes t j k Hpos Hj Hwin).
    + rewrite Hcs. reflexivity.
  - split; reflexivity.
Qed.

Lemma resolver_selects_the_window_witness :
  exists i : nat,
    fst (resolveScene SCENES (5999 # 1000)) = Z.of_nat i /\
    snd (resolveScene SCENES (5999 # 1000)) == cumulativeStart SCENES i /\
    inWindow SCENES i (5999 # 1000) /\
    (forall j, inWindow SCENES j (5999 # 1000) -> j = i) /\
    sceneElapsedOf SCENES (5999 # 1000) == (5999 # 1000) - cumulativeStart SCENES i.
Proof.
  apply (proj1 resolver_selects_the_window SCENES (5999 # 1000)).
  - discriminate.
  - repeat constructor.
  - vm_compute. discriminate.
  - vm_compute. reflexivity.
Defined.

(** ** Compositor: fades, zoom and the seconds readout *)

Lemma Math_min_l a b : a <= b -> Math_min a b == a.
Proof.
  intro H. destruct (Math_min_spec a b) as [[_ ->] | [H' ->]]; [reflexivity | lra].
Qed.

Lemma Math_min_r a b : b <= a -> Math_min a b == b.
Proof.
  intro H. destruct (Math_min_spec a b) as [[H' ->] | [_ ->]]; [lra | reflexivity].
Qed.

Lemma Math_min_Qmin a b : Math_min a b == Qmin a b.
Proof.
  destruct (Math_min_spec a b) as [[H ->] | [H ->]].
  - symmetry. apply Q.min_l. assumption.
  - symmetry. apply Q.min_r. lra.
Qed.

Lemma clamp_below v lo hi : lo <= hi -> v <= lo -> clamp v lo hi == lo.
Proof.
  intros Hlh Hv.
  destruct (clamp_cases v lo hi Hlh) as [[_ ->] | [[H ->] | [H ->]]];
    [reflexivity | lra | lra].
Qed.

Lemma clamp_above v lo hi : lo <= hi -> hi <= v -> clamp v lo hi == hi.
Proof.
  intros Hlh Hv.
  destruct (clamp_cases v lo hi Hlh) as [[H ->] | [[H ->] | [_ ->]]];
    [lra | lra | reflexivity].
Qed.

Lemma clamp_inside v lo hi : lo <= v -> v <= hi -> clamp v lo hi == v.
Proof.
  intros H1 H2. assert (Hlh : lo <= hi) by lra.
  destruct (clamp_cases v lo hi Hlh) as [[H ->] | [[_ ->] | [H ->]]];
    [lra | reflexivity | lra].
Qed.

Lemma fadeWindow_bounds d :
  0 < d -> 0 < fadeWindowOf d /\ fadeWindowOf d <= d / 3 /\ fadeWindowOf d <= 75 # 100.
Proof.
  intro Hd. unfold fadeWindowOf.
  assert (H3 : 0 < d / 3) by (apply Qlt_shift_div_l; lra).
  destruct (Math_min_spec (75 # 100) (d / 3)) as [[H ->] | [H ->]]; lra.
Qed.

Lemma fadeWindow_third d : 0 < d -> 3 * fadeWindowOf d <= d.
Proof.
  intro Hd. destruct (fadeWindow_bounds d Hd) as (_ & H & _).
  assert (E : d == 3 * (d / 3)) by (field).
  lra.
Qed.

(** A quotient by the fade window reaches 1 exactly from the window on. *)
Lemma ramp_full x w : 0 < w -> w <= x -> clamp (x / w) 0 1 == 1.
Proof.
  intros Hw Hx. apply clamp_above; [lra |].
  apply Qle_shift_div_l; lra.
Qed.

Lemma ramp_zero w : clamp (0 / w) 0 1 == 0.
Proof.
  apply clamp_below; [lra |]. unfold Qdiv. lra.
Qed.

Lemma textOpacity_ends d se :
  0 < d ->
  clamp (se / fadeWindowOf d) 0 1 == 0 /\
    clamp ((d - se) / fadeWindowOf d) 0 1 == 1 \/
  clamp (se / fadeWindowOf d) 0 1 == 1 /\
    clamp ((d - se) / fadeWindowOf d) 0 1 == 0 ->
  textOpacityOf d se == 0.
Proof.
  intros Hd [[Hin Hout] | [Hin Hout]]; unfold textOpacityOf; cbv zeta.
  - rewrite Math_min_l; lra.
  - rewrite Math_min_r; lra.
Qed.

(** C7: for a scene of duration [d > 0] and fade window
    [w = min(0.75, d / 3)], the text opacity of [drawFrame] is the minimum of
    the fade-in ramp [clamp(sceneElapsed / w, 0, 1)] and the fade-out ramp
    [clamp((d - sceneElapsed) / w, 0, 1)]; it is the opacity the title is
    drawn with; it is 0 at scene-local time 0 and at scene-local time [d],
    and 1 on [w, d - w] when [d] exceeds [2 w]. *)
Theorem text_opacity_fades :
  forall d : Q, 0 < d ->
    let w := Qmin (75 # 100) (d / 3) in
    fadeWindowOf d == w /\
    (forall se,
        textOpacityOf d se ==
          Qmin (clamp (se / fadeWindowOf d) 0 1)
               (clamp ((d - se) / fadeWindowOf d) 0 1)) /\
    (forall props host scene image se progress,
        In (setFillStyle
              (Solid (rgba 255 255 255
                        ((92 # 100) * textOpacityOf (duration scene) se))))
           (Engine.paint props host scene image se progress)) /\
    textOpacityOf d 0 == 0 /\
    textOpacityOf d d == 0 /\
    (2 * w < d ->
     forall se, w <= se -> se <= d - w -> textOpacityOf d se == 1).
Proof.
  intros d Hd w.
  assert (Hw : fadeWindowOf d == w) by apply Math_min_Qmin.
  destruct (fadeWindow_bounds d Hd) as (Hpos & _ & _).
  pose proof (fadeWindow_third d Hd) as H3.
  split; [exact Hw |]. split; [| split; [| split; [| split]]].
  - intro se. unfold textOpacityOf. cbv zeta. apply Math_min_Qmin.
  - intros props host scene image se progress.
    unfold Engine.paint. cbv zeta.
    apply in_or_app. left. simpl. do 14 right. left. reflexivity.
  - apply textOpacity_ends; [assumption | left]. split.
    + apply ramp_zero.
    + apply ramp_full; lra.
  - apply textOpacity_ends; [assumption | right]. split.
    + apply ramp_full; lra.
    + assert (E : (d - d) / fadeWindowOf d == 0 / fadeWindowOf d)
        by (unfold Qdiv; lra).
      apply clamp_below; [lra |]. rewrite E. unfold Qdiv. lra.
  - intros _ se Hlo Hhi. rewrite <- Hw in Hlo, Hhi.
    unfold textOpacityOf. cbv zeta.
    pose proof (ramp_full se (fadeWindowOf d) Hpos Hlo) as Hin.
    assert (Hout : clamp ((d - se) / fadeWindowOf d) 0 1 == 1)
      by (apply ramp_full; lra).
    rewrite Math_min_l; lra.
Qed.

Lemma text_opacity_fades_witness :
  textOpacityOf 6 0 == 0 /\ textOpacityOf 6 6 == 0 /\ textOpacityOf 6 3 == 1.
Proof.
  destruct (text_opacity_fades 6 ltac:(reflexivity))
    as (_ & _ & _ & H0 & Hd & Hmid).
  split; [exact H0 |]. split; [exact Hd |].
  apply Hmid; vm_compute; first [reflexivity | discriminate].
Defined.

Lemma cube_lt a b : 0 <= a -> a < b -> a * a * a < b * b * b.
Proof.
  intros Ha Hab.
  assert (H1 : a * a <= b * b) by nra.
  assert (H2 : 0 < b * b) by nra.
  nra.
Qed.

Lemma ease_low t : t < 1 # 2 -> easeInOutCubic t == 4 * t * t * t.
Proof.
  intro H. unfold easeInOutCubic.
  rewrite (proj2 (ltb_true t (1 # 2)) H). reflexivity.
Qed.

Lemma ease_high t :
  1 # 2 <= t ->
  easeInOutCubic t == 1 - ((- (2) * t + 2) * (- (2) * t + 2) * (- (2) * t + 2)) / 2.
Proof.
  intro H. unfold easeInOutCubic, Math_pow3.
  rewrite (proj2 (ltb_false t (1 # 2)) H). reflexivity.
Qed.

Lemma ease_increasing s t :
  0 <= s -> s < t -> t <= 1 -> easeInOutCubic s < easeInOutCubic t.
Proof.
  intros Hs Hst Ht.
  destruct (Qlt_le_dec s (1 # 2)) as [Hs2 | Hs2];
    destruct (Qlt_le_dec t (1 # 2)) as [Ht2 | Ht2].
  - rewrite (ease_low s Hs2), (ease_low t Ht2).
    pose proof (cube_lt s t Hs Hst). lra.
  - rewrite (ease_low s Hs2), (ease_high t Ht2).
    assert (Hc : s * s * s < (1 # 2) * (1 # 2) * (1 # 2)) by (apply cube_lt; lra).
    set (u := - (2) * t + 2) in *.
    assert (Hu0 : 0 <= u) by (unfold u; lra).
    assert (Hu1 : u <= 1) by (unfold u; lra).
    assert (Hu : u * u * u <= 1).
    { assert (u * u <= 1) by nra. nra. }
    assert (E : (u * u * u) / 2 == (1 # 2) * (u * u * u)) by field.
    rewrite E.
    assert (Hc' : (1 # 2) * (1 # 2) * (1 # 2) == 1 # 8) by reflexivity.
    lra.
  - lra.
  - rewrite (ease_high s Hs2), (ease_high t Ht2).
    set (u := - (2) * t + 2) in *. set (v := - (2) * s + 2) in *.
    assert (Hu0 : 0 <= u) by (unfold u; lra).
    assert (Huv : u < v) by (unfold u, v; lra).
    pose proof (cube_lt u v Hu0 Huv) as Hc.
    assert (Eu : (u * u * u) / 2 == (1 # 2) * (u * u * u)) by field.
    assert (Ev : (v * v * v) / 2 == (1 # 2) * (v * v * v)) by field.
    rewrite Eu, Ev. lra.
Qed.

(** C8: the zoom of [drawFrame] is [1 + 0.06 * easeInOutCubic(sceneProgress)]
    with [easeInOutCubic(t) = 4 t^3] below one half and
    [1 - (-2 t + 2)^3 / 2] from one half on; the image is drawn scaled by the
    cover-fit factor times this zoom; the zoom is 1 at progress 0, 1.06 at
    progress 1, and strictly increasing on [0, 1]. *)
Theorem zoom_eases_from_1_to_1_06 :
  (forall p, zoomOf p == 1 + (6 # 100) * easeInOutCubic p) /\
  (forall t, t < 1 # 2 -> easeInOutCubic t == 4 * t ^ 3) /\
  (forall t, 1 # 2 <= t -> easeInOutCubic t == 1 - (- (2) * t + 2) ^ 3 / 2) /\
  (forall props host scene image se progress,
      let sceneProgress := clamp (se / duration scene) 0 1 in
      let scale :=
        Math_max (res_width (resolution props) / img_width image)
                 (res_height (resolution props) / img_height image)
        * zoomOf sceneProgress in
      exists dx dy,
        In (drawImage image dx dy (img_width image * scale) (img_height image * scale))
           (Engine.paint props host scene image se progress)) /\
  zoomOf 0 == 1 /\
  zoomOf 1 == 106 # 100 /\
  (forall s t, 0 <= s -> s < t -> t <= 1 -> zoomOf s < zoomOf t).
Proof.
  split; [intro p; reflexivity |].
  split; [intros t H; rewrite (ease_low t H); simpl; ring |].
  split; [intros t H; rewrite (ease_high t H); simpl; field |].
  split.
  { intros props host scene image se progress sceneProgress scale.
    eexists. eexists. unfold Engine.paint. cbv zeta.
    apply in_or_app. left. simpl. right. left. reflexivity. }
  split; [reflexivity |]. split; [reflexivity |].
  intros s t Hs Hst Ht. unfold zoomOf.
  pose proof (ease_increasing s t Hs Hst Ht). lra.
Qed.

Lemma zoom_eases_from_1_to_1_06_witness :
  zoomOf (1 # 4) < zoomOf (3 # 4) /\ easeInOutCubic (1 # 4) == 4 * (1 # 4) ^ 3.
Proof.
  destruct zoom_eases_from_1_to_1_06 as (_ & Hlow & _ & _ & _ & _ & Hinc).
  split.
  - apply Hinc; vm_compute; first [reflexivity | discriminate].
  - apply Hlow. reflexivity.
Defined.

Lemma Math_round_unique x n :
  inject_Z n - (1 # 2) <= x -> x < inject_Z n + (1 # 2) -> Math_round x = n.
Proof.
  intros Hlo Hhi. unfold Math_round.
  pose proof (Qfloor_le (x + (1 # 2))) as H1.
  pose proof (Qlt_floor (x + (1 # 2))) as H2.
  assert (A : (Qfloor (x + (1 # 2)) < n + 1)%Z).
  { rewrite Zlt_Qlt, inject_Z_plus. change (inject_Z 1) with 1. lra. }
  assert (B : (n < Qfloor (x + (1 # 2)) + 1)%Z).
  { rewrite Zlt_Qlt, inject_Z_plus. rewrite inject_Z_plus in H2.
    change (inject_Z 1) with 1 in *. lra. }
  lia.
Qed.

Lemma Math_round_comp x y : x == y -> Math_round x = Math_round y.
Proof.
  intro E. unfold Math_round. apply Qfloor_comp. rewrite E. reflexivity.
Qed.

Lemma progress_of_30 (props : Props) elapsedMs :
  total props == 30 -> 0 <= elapsedMs -> elapsedMs < total props * 1000 ->
  progressOf props elapsedMs * 30 == elapsedMs / 1000.
Proof.
  intros E H0 H1. unfold progressOf. cbv zeta.
  assert (Hq : elapsedMs / (total props * 1000) == elapsedMs / 30000).
  { rewrite E. reflexivity. }
  assert (Hb : 0 <= elapsedMs / 30000 /\ elapsedMs / 30000 <= 1).
  { split; [apply Qle_shift_div_l; lra | apply Qle_shift_div_r; lra]. }
  rewrite clamp_inside by (rewrite Hq; tauto).
  rewrite Hq. field.
Qed.

Lemma readout_parts (props : Props) :
  0 < total props -> ~ total props == 30 ->
  0 <= partingInstant (total props) /\
  partingInstant (total props) < total props * 1000 /\
  readoutSeconds (progressOf props (partingInstant (total props))) <>
    Math_round (partingInstant (total props) / 1000).
Proof.
  intros Hpos Hne. unfold partingInstant, readoutSeconds, progressOf. cbv zeta.
  set (D := total props) in *.
  destruct (ltb 30 D) eqn:E.
  - apply ltb_true in E.
    assert (Hq : 500 / (D * 1000) == (1 # 2) / D) by (field; lra).
    assert (Hq0 : 0 < (1 # 2) / D) by (apply Qlt_shift_div_l; lra).
    assert (Hq1 : (1 # 2) / D < 1 # 60) by (apply Qlt_shift_div_r; lra).
    split; [lra |]. split; [lra |].
    assert (Hc : clamp (500 / (D * 1000)) 0 1 == (1 # 2) / D).
    { rewrite clamp_inside; rewrite Hq; lra. }
    rewrite (Math_round_unique (clamp (500 / (D * 1000)) 0 1 * 30) 0)
      by (rewrite Hc; change (inject_Z 0) with 0; change (inject_Z 1) with 1; lra).
    rewrite (Math_round_unique (500 / 1000) 1); [discriminate | |];
      vm_compute; first [reflexivity | discriminate].
  - apply ltb_false in E.
    assert (Hlt : D < 30).
    { destruct (Qlt_le_dec D 30) as [H | H]; [assumption |].
      exfalso. apply Hne. lra. }
    assert (Hi : D * 1000 / 60 == D * (50 # 3)) by field.
    assert (Hq : D * 1000 / 60 / (D * 1000) == 1 # 60) by (field; lra).
    assert (Hs : D * 1000 / 60 / 1000 == D * (1 # 60)) by field.
    split; [lra |]. split; [lra |].
    assert (Hc : clamp (D * 1000 / 60 / (D * 1000)) 0 1 == 1 # 60).
    { rewrite clamp_inside; rewrite Hq; lra. }
    rewrite (Math_round_unique (clamp (D * 1000 / 60 / (D * 1000)) 0 1 * 30) 1)
      by (rewrite Hc; change (inject_Z 0) with 0; change (inject_Z 1) with 1; lra).
    rewrite (Math_round_unique (D * 1000 / 60 / 1000) 0)
      by (rewrite Hs; change (inject_Z 0) with 0; lra).
    discriminate.
Qed.

(** C10: the text drawn next to the progress bar is
    [Math.round(progress * 30)] followed by [" sec"], with the literal 30 and
    not the configured duration.  When the configured duration is 30 seconds
    it is the elapsed time rounded to whole seconds on every drawn frame;
    for any other positive duration there is a drawn frame on which it is
    not. *)
Theorem readout_uses_literal_30 :
  forall props : Props,
    (forall host scene image se elapsedMs,
        In (fillText
              (string_of_Z (Math_round (progressOf props elapsedMs * 30)) ++ " sec")
              (res_width (resolution props) - 150)
              (res_height (resolution props) - 34))
           (Engine.paint props host scene image se (progressOf props elapsedMs))) /\
    (total props == 30 ->
     forall elapsedMs, 0 <= elapsedMs -> elapsedMs < total props * 1000 ->
       readoutSeconds (progressOf props elapsedMs) = Math_round (elapsedMs / 1000)) /\
    (0 < total props -> ~ total props == 30 ->
     exists elapsedMs,
       0 <= elapsedMs /\ elapsedMs < total props * 1000 /\
       readoutSeconds (progressOf props elapsedMs) <> Math_round (elapsedMs / 1000)).
Proof.
  intro props. split; [| split].
  - intros host scene image se elapsedMs. unfold Engine.paint. cbv zeta.
    do 4 (apply in_or_app; right). simpl. do 6 right. left. reflexivity.
  - intros E elapsedMs H0 H1. unfold readoutSeconds.
    apply Math_round_comp. apply progress_of_30; assumption.
  - intros Hpos Hne. exists (partingInstant (total props)).
    apply readout_parts; assumption.
Qed.

Lemma readout_uses_literal_30_witness :
  readoutSeconds (progressOf studioProps 29999) = Math_round (29999 / 1000) /\
  exists elapsedMs,
    0 <= elapsedMs /\ elapsedMs < 60 * 1000 /\
    readoutSeconds
      (progressOf {| scenes := SCENES; total := 60; fps := 30;
                     resolution := DEFAULT_RESOLUTION |} elapsedMs)
      <> Math_round (elapsedMs / 1000).
Proof.
  split.
  - apply (proj1 (proj2 (readout_uses_literal_30 studioProps)));
      vm_compute; first [reflexivity | discriminate].
  - apply (proj2 (proj2 (readout_uses_literal_30
                           {| scenes := SCENES; total := 60; fps := 30;
                              resolution := DEFAULT_RESOLUTION |})));
      vm_compute; [reflexivity | discriminate].
Defined.

(** ** Word wrap *)

Lemma append_nil_r (s : string) : (s ++ "")%string = s.
Proof. induction s as [| c s IH]; simpl; [reflexivity | now rewrite IH]. Qed.

Lemma append_assoc (a b c : string) : ((a ++ b) ++ c = a ++ (b ++ c))%string.
Proof. induction a as [| ch a IH]; simpl; [reflexivity | now rewrite IH]. Qed.

Lemma joined_single word : joined [word] = (word ++ " ")%string.
Proof. reflexivity. Qed.

Lemma joined_snoc group word :
  joined (group ++ [word]) = (joined group ++ word ++ " ")%string.
Proof.
  induction group as [| w group IH]; simpl.
  - reflexivity.
  - rewrite IH, append_assoc. reflexivity.
Qed.

(** The string loop and the group loop take the same branches. *)
Lemma wrapLoop_groupLoop measure x maxWidth lineHeight :
  forall words n current line lineY,
    line = joined current ->
    (let '(ops, (line', lineY')) :=
       wrapLoop measure x maxWidth lineHeight words n line lineY in
     ops ++ [fillText (trim line') x lineY'])
    = linesAt x lineY lineHeight (groupLoop measure maxWidth words n current).
Proof.
  induction words as [| word words IH]; intros n current line lineY ->.
  - reflexivity.
  - simpl.
    destruct (ltb maxWidth (measure (joined current ++ word ++ " ")%string)
              && Nat.ltb 0 n).
    + specialize (IH (S n) [word] (word ++ " ")%string (lineY + lineHeight)
                    (eq_sym (joined_single word))).
      destruct (wrapLoop measure x maxWidth lineHeight words (S n)
                  (word ++ " ")%string (lineY + lineHeight))
        as [ops [line' lineY']].
      simpl. now rewrite IH.
    + apply IH. now rewrite joined_snoc.
Qed.

Lemma groupLoop_concat measure maxWidth : forall words n current,
  List.concat (groupLoop measure maxWidth words n current) = current ++ words.
Proof.
  induction words as [| word words IH]; intros n current; simpl.
  - now rewrite app_nil_r.
  - destruct (_ && _); simpl; rewrite IH.
    + reflexivity.
    + now rewrite <- app_assoc.
Qed.

Lemma groupLoop_head measure maxWidth : forall words n current,
  exists more groups,
    groupLoop measure maxWidth words n current = (current ++ more) :: groups.
Proof.
  induction words as [| word words IH]; intros n current; simpl.
  - exists [], []. now rewrite app_nil_r.
  - destruct (_ && _).
    + exists [], (groupLoop measure maxWidth words (S n) [word]).
      now rewrite app_nil_r.
    + destruct (IH (S n) (current ++ [word])) as (more & groups & E).
      exists (word :: more), groups. rewrite E. now rewrite <- app_assoc.
Qed.

Lemma groupLoop_nonempty measure maxWidth : forall words n current,
  (n = 0%nat <-> current = []) ->
  words <> [] \/ current <> [] ->
  Forall (fun group => group <> []) (groupLoop measure maxWidth words n current).
Proof.
  induction words as [| word words IH]; intros n current Hn Hne; simpl.
  - constructor; [| constructor]. destruct Hne as [H | H]; [congruence | exact H].
  - destruct (ltb maxWidth _ && Nat.ltb 0 n) eqn:E.
    + apply andb_true_iff in E. destruct E as [_ E]. apply Nat.ltb_lt in E.
      constructor.
      * intro H. apply Hn in H. lia.
      * apply IH; [split; [lia | discriminate] | right; discriminate].
    + apply IH.
      * split; [lia | intro H; destruct current; discriminate].
      * right. destruct current; discriminate.
Qed.

Lemma fits_single measure maxWidth word : fits measure maxWidth [word].
Proof.
  intros before w after E Hne. destruct before as [| b before]; [congruence |].
  destruct before; discriminate.
Qed.

Lemma fits_snoc measure maxWidth current word :
  fits measure maxWidth current ->
  (current <> [] -> measure (joined current ++ word ++ " ")%string <= maxWidth) ->
  fits measure maxWidth (current ++ [word]).
Proof.
  intros Hfit Hnew before w after E Hne.
  destruct (@exists_last _ (w :: after) ltac:(discriminate)) as (front & z & Ez).
  rewrite Ez in E. rewrite app_assoc in E.
  apply app_inj_tail in E. destruct E as [E ->].
  destruct front as [| f front].
  - simpl in Ez. injection Ez as -> _. rewrite app_nil_r in E. subst current.
    apply Hnew. exact Hne.
  - simpl in Ez. injection Ez as -> _.
    apply (Hfit before f front); [| exact Hne]. exact E.
Qed.

Lemma groupLoop_fits measure maxWidth : forall words n current,
  (n = 0%nat <-> current = []) ->
  fits measure maxWidth current ->
  Forall (fits measure maxWidth) (groupLoop measure maxWidth words n current).
Proof.
  induction words as [| word words IH]; intros n current Hn Hfit; simpl.
  - constructor; [exact Hfit | constructor].
  - destruct (ltb maxWidth (measure (joined current ++ word ++ " ")%string)) eqn:Ew;
      destruct (Nat.ltb 0 n) eqn:E0; simpl.
    + constructor; [exact Hfit |].
      apply IH; [split; [lia | discriminate] | apply fits_single].
    + apply Nat.ltb_ge in E0.
      apply IH; [split; [lia | intro H; destruct current; discriminate] |].
      apply fits_snoc; [exact Hfit |].
      intro Hc. exfalso. apply Hc. apply Hn. lia.
    + apply ltb_false in Ew.
      apply IH; [split; [lia | intro H; destruct current; discriminate] |].
      apply fits_snoc; [exact Hfit | intros _; exact Ew].
    + apply ltb_false in Ew.
      apply IH; [split; [lia | intro H; destruct current; discriminate] |].
      apply fits_snoc; [exact Hfit | intros _; exact Ew].
Qed.

Lemma groupLoop_breaks measure maxWidth : forall words n current,
  breaksForced measure maxWidth (groupLoop measure maxWidth words n current).
Proof.
  induction words as [| word words IH]; intros n current.
  - simpl. tauto.
  - cbn [groupLoop]. cbv zeta.
    destruct (ltb maxWidth (measure (joined current ++ word ++ " ")%string)) eqn:Ew;
      destruct (Nat.ltb 0 n) eqn:E0; cbn [andb]; try apply IH.
    cbn [breaksForced]. split; [| apply IH].
    destruct (groupLoop_head measure maxWidth words (S n) [word])
      as (more & groups & ->).
    simpl. apply ltb_true. exact Ew.
Qed.

Lemma split_space_nonempty text : split_space text <> [].
Proof.
  destruct text as [| c text]; simpl; [discriminate |].
  destruct (Ascii.eqb c space); [discriminate |].
  destruct (split_space text); discriminate.
Qed.

Lemma fits_whole measure maxWidth group :
  group <> [] -> fits measure maxWidth group ->
  (exists word, group = [word]) \/ measure (joined group) <= maxWidth.
Proof.
  intros Hne Hfit.
  destruct (exists_last Hne) as (front & z & ->).
  destruct front as [| f front].
  - left. exists z. reflexivity.
  - right. rewrite joined_snoc.
    apply (Hfit (f :: front) z []); [reflexivity | discriminate].
Qed.

Lemma trimStart_length s : (String.length (trimStart s) <= String.length s)%nat.
Proof.
  induction s as [| c s IH]; simpl; [lia |].
  destruct (is_white c); simpl; lia.
Qed.

Lemma trimEnd_length s : (String.length (trimEnd s) <= String.length s)%nat.
Proof.
  induction s as [| c s IH]; simpl; [lia |].
  destruct (trimEnd s); [destruct (is_white c) |]; simpl in *; lia.
Qed.

Lemma charWidth_trim s : charWidth (trim s) <= charWidth s.
Proof.
  unfold charWidth, trim.
  pose proof (trimEnd_length (trimStart s)) as H1.
  pose proof (trimStart_length s) as H2.
  assert (H : (Z.of_nat (String.length (trimEnd (trimStart s)))
               <= Z.of_nat (String.length s))%Z) by lia.
  rewrite Zle_Qle in H. lra.
Qed.

(** C9: [wrapText] draws the words of the text ([text.split(' ')]) in
    groups, one [fillText] per group and line: the groups taken in order
    are the words of the text, each word whole in exactly one group and none
    left out, the last group being drawn by the final [fillText]; inside a
    group every word after the first was added because the line with it
    measured at most [maxWidth]; a group ends where the line with the next
    word measured more than [maxWidth], and that word starts the next group;
    so a line that measures more than [maxWidth] holds a single word.  The
    width compared is the one the function measures, of the words each
    followed by a space; the text drawn is that line trimmed, and is no wider
    whenever trimming does not widen a text. *)
Theorem wrapText_wraps_whole_words :
  forall (measure : string -> Q) (text : string) (x y maxWidth lineHeight : Q),
    let words := split_space text in
    let groups := wrapGroups measure maxWidth words in
    wrapText measure text x y maxWidth lineHeight = linesAt x y lineHeight groups /\
    List.concat groups = words /\
    Forall (fun group => group <> []) groups /\
    Forall (fits measure maxWidth) groups /\
    breaksForced measure maxWidth groups /\
    Forall (fun group =>
              (exists word, group = [word]) \/ measure (joined group) <= maxWidth)
           groups /\
    ((forall s, measure (trim s) <= measure s) ->
     Forall (fun group =>
               (exists word, group = [word]) \/
               measure (trim (joined group)) <= maxWidth)
            groups).
Proof.
  intros measure text x y maxWidth lineHeight words groups.
  assert (Hne : Forall (fun group => group <> []) groups).
  { apply groupLoop_nonempty; [tauto | left; apply split_space_nonempty]. }
  assert (Hfit : Forall (fits measure maxWidth) groups).
  { apply groupLoop_fits; [tauto |]. intros before w after E.
    destruct before; discriminate. }
  assert (Hwhole : Forall (fun group =>
            (exists word, group = [word]) \/ measure (joined group) <= maxWidth)
           groups).
  { rewrite Forall_forall in *. intros g Hg.
    apply fits_whole; [apply Hne | apply Hfit]; exact Hg. }
  split; [| split; [| split; [| split; [| split; [| split]]]]];
    try assumption.
  - unfold wrapText.
    exact (wrapLoop_groupLoop measure x maxWidth lineHeight
             (split_space text) 0%nat [] EmptyString y eq_refl).
  - apply (groupLoop_concat measure maxWidth words 0%nat []).
  - apply groupLoop_breaks.
  - intro Htrim. rewrite Forall_forall in *. intros g Hg.
    destruct (Hwhole g Hg) as [H | H]; [left; exact H | right].
    specialize (Htrim (joined g)). lra.
Qed.

Lemma wrapText_wraps_whole_words_witness :
  wrapText charWidth "aaa bb cccc d e" 110 620 60 40
    = [ fillText "aaa" 110 620; fillText "bb" 110 (620 + 40);
        fillText "cccc" 110 (620 + 40 + 40); fillText "d e" 110 (620 + 40 + 40 + 40) ] /\
  Forall (fun group =>
            (exists word, group = [word]) \/ charWidth (trim (joined group)) <= 60)
         (wrapGroups charWidth 60 (split_space "aaa bb cccc d e")).
Proof.
  destruct (wrapText_wraps_whole_words charWidth "aaa bb cccc d e" 110 620 60 40)
    as (Hdraw & _ & _ & _ & _ & _ & Htrim).
  split.
  - rewrite Hdraw. reflexivity.
  - apply Htrim. exact charWidth_trim.
Defined.

(** ** Completion *)

Lemma drawFrame_completes (props : Props) (host : Host) images elapsedMs :
  total props * 1000 <= elapsedMs -> signalsCompletion props host images elapsedMs.
Proof.
  intros H onComplete e. unfold drawFrame. cbv zeta.
  rewrite (proj2 (geb_true elapsedMs (total props * 1000)) H). reflexivity.
Qed.

Lemma drawFrame_draws (props : Props) (host : Host) images elapsedMs :
  elapsedMs < total props * 1000 -> skipsCompletion props host images elapsedMs.
Proof.
  intros H onComplete e. unfold drawFrame. cbv zeta.
  rewrite (proj2 (geb_false elapsedMs (total props * 1000)) H). reflexivity.
Qed.

(** C2, as stated, fails: with the five six-second scenes (sum 30 s) under a
    configured duration of 60 s, [drawFrame] at 30 s does not signal
    completion; it selects scene index 4 and draws. *)
Lemma completion_at_scene_total_counterexample :
  sumDurations (scenes longProps) * 1000 <= 30000 /\
  ~ signalsCompletion longProps sampleHost sampleImages 30000 /\
  fst (resolveScene (scenes longProps) (30000 / 1000)) = 4%Z /\
  existsb isCanvas
    (trace (snd (drawFrame longProps sampleHost sampleImages 30000
                   (notifyStatus complete) mounted))) = true /\
  existsb (isStatus complete)
    (trace (snd (drawFrame longProps sampleHost sampleImages 30000
                   (notifyStatus complete) mounted))) = false.
Proof.
  split; [vm_compute; discriminate |].
  split; [| split; [| split]]; try (vm_compute; reflexivity).
  intro H. specialize (H (ret tt) mounted).
  apply (f_equal (fun r => List.length (trace (snd r)))) in H.
  vm_compute in H. discriminate.
Qed.

(** C2, amended: for every elapsed time at or beyond the configured total
    duration (the [duration] prop times 1000 ms, which the code does not
    derive from the scene durations), [drawFrame] reports progress, calls
    [onComplete] and returns: no scene is resolved, nothing is drawn, and
    this holds whatever the scene list; the progress reported is 1 for a
    positive duration; below the configured duration [onComplete] is not
    called.  When the configured duration is the sum of the scene durations
    the completion comes at that sum; with the application's five six-second
    scenes and its configured 30 s, [drawFrame] at 30.0 s signals
    completion. *)
Theorem completion_at_configured_duration :
  forall (props : Props) (host : Host) (images : list Image) (elapsedMs : Q),
    (total props * 1000 <= elapsedMs ->
     signalsCompletion props host images elapsedMs) /\
    (0 < total props -> total props * 1000 <= elapsedMs ->
     progressOf props elapsedMs == 1) /\
    (elapsedMs < total props * 1000 ->
     skipsCompletion props host images elapsedMs) /\
    (total props == sumDurations (scenes props) ->
     sumDurations (scenes props) * 1000 <= elapsedMs ->
     signalsCompletion props host images elapsedMs) /\
    signalsCompletion studioProps host images 30000.
Proof.
  intros props host images elapsedMs. split; [| split; [| split; [| split]]].
  - apply drawFrame_completes.
  - intros Hpos H. unfold progressOf. cbv zeta.
    apply clamp_above; [lra |]. apply Qle_shift_div_l; lra.
  - apply drawFrame_draws.
  - intros E H. apply drawFrame_completes. rewrite E. exact H.
  - apply drawFrame_completes. vm_compute. discriminate.
Qed.

Lemma completion_at_configured_duration_witness :
  signalsCompletion longProps sampleHost sampleImages 60000 /\
  skipsCompletion longProps sampleHost sampleImages 30000.
Proof.
  split.
  - apply (proj1 (completion_at_configured_duration
                    longProps sampleHost sampleImages 60000)).
    vm_compute. discriminate.
  - apply (proj1 (proj2 (proj2 (completion_at_configured_duration
                                  longProps sampleHost sampleImages 30000)))).
    vm_compute. reflexivity.
Defined.

(** ** The scheduler *)

(** Whenever [tick] runs at or beyond the configured duration it ends by
    requesting the next frame: the handle it stores is pending again. *)
Lemma tick_rearms_after_completion (props : Props) (host : Host) id e :
  canvasRef e = true ->
  total props * 1000 <= now e - startTimeRef e ->
  exists e',
    tick props host id e = (Ok tt, e') /\
    animationRef e' = Some (nextFrameId e) /\
    In (nextFrameId e, id) (frameRequests e') /\
    trace e' = trace e ++ [ ProgressValue (progressOf props (now e - startTimeRef e));
                            StatusChange complete; ProgressValue 1 ].
Proof.
  intros Hc Hdone. unfold tick. unfold bind at 1, get. rewrite Hc. cbn [negb].
  unfold bind at 1.
  rewrite (drawFrame_completes props host _ _ Hdone).
  run_monad. cbn [emit renders animationRef].
  destruct (r_recorder (nth id (renders e) emptyRender)) as [[|] |];
    cbn [set_renders emit animationRef];
    destruct (animationRef e) as [[| h] |]; cbn [Nat.eqb];
    eexists; (split; [reflexivity |]); trace_done.
Qed.

(** C3 on the application's configuration (five six-second scenes, 30 s):
    the frame at 30000 ms reports progress 1, status [complete] and stops the
    recorder, but after [cancelAnimation] has returned the tick requests the
    next frame: a callback is pending, it fires on the next frame and
    reports completion a second time, and requests yet another one.  Only
    the [cancelAnimation] of the unmount leaves nothing pending. *)
Theorem scheduler_requests_frames_after_completion :
  let done := step studioProps sampleHost inFlight (AnimationFrame 30000) in
  let again := step studioProps sampleHost done (AnimationFrame 30016) in
  rendersInFlight 0 inFlight /\
  added inFlight done
    = [ ProgressValue (progressOf studioProps 30000);
        StatusChange complete; ProgressValue 1 ] /\
  r_recorder (renderOf 0 done) = Some inactive /\
  r_stopQueued (renderOf 0 done) = true /\
  frameRequests done = [(3%nat, 0%nat)] /\
  animationRef done = Some 3%nat /\
  added done again
    = [ ProgressValue (progressOf studioProps 30016);
        StatusChange complete; ProgressValue 1 ] /\
  frameRequests again = [(4%nat, 0%nat)] /\
  animationRef again = Some 4%nat /\
  frameRequests (step studioProps sampleHost again Unmount) = [] /\
  added again
    (run studioProps sampleHost again [Unmount; AnimationFrame 30032]) = [].
Proof.
  cbv zeta. unfold rendersInFlight.
  conjuncts; try (vm_compute; reflexivity).
  exists 2%nat. vm_compute. split; [reflexivity | left; reflexivity].
Qed.

(** ** Calls of [renderVideo] *)

Lemma alter_new {A : Type} (f : A -> A) (l : list A) (x : A) :
  alter f (List.length l) (l ++ [x]) = l ++ [f x].
Proof.
  induction l as [| a l IH]; simpl; [reflexivity | now rewrite IH].
Qed.

Lemma nth_new {A : Type} (l : list A) (x d : A) :
  nth (List.length l) (l ++ [x]) d = x.
Proof.
  induction l as [| a l IH]; simpl; [reflexivity | exact IH].
Qed.

Lemma nth_alter_same {A : Type} (f : A -> A) (d : A) : forall (l : list A) id,
  (id < List.length l)%nat -> nth id (alter f id l) d = f (nth id l d).
Proof.
  induction l as [| a l IH]; intros [| id] H; simpl in *; try lia.
  - reflexivity.
  - apply IH. lia.
Qed.

Lemma filter_handle_absent handle id (requests : list (nat * nat)) :
  ~ In (handle, id)
      (filter (fun request => negb (Nat.eqb (fst request) handle)) requests).
Proof.
  intro H. apply filter_In in H. destruct H as [_ H].
  simpl in H. rewrite Nat.eqb_refl in H. discriminate.
Qed.

(** [cancelAnimation] removes the callback whose handle [animationRef]
    holds. *)
Lemma cancelAnimation_removes e handle id :
  animationRef e = Some handle -> handle <> 0%nat ->
  ~ In (handle, id) (frameRequests (snd (cancelAnimation e))).
Proof.
  intros H Hnz. run_monad. rewrite H.
  destruct handle as [| h]; [congruence |].
  cbn. apply filter_handle_absent.
Qed.

(** C4, as stated, fails: with render 0 of the application in flight, a
    second call of [renderVideo] is not rejected; it starts a second
    recorder, cancels the pending frame callback of render 0 and restarts the
    clock.  Render 1 then runs to its end while render 0 stays pending with
    its recorder recording. *)
Lemma second_render_counterexample :
  let second := step studioProps sampleHost inFlight CallRenderVideo in
  let final :=
    run studioProps sampleHost second
      [AnimationFrame 40000; RecorderStop 1; AnimationFrame 40016] in
  rendersInFlight 0 inFlight /\
  ~ rejectsAndPreserves studioProps sampleHost inFlight /\
  r_promise (renderOf 1 second) = Pending /\
  r_recorder (renderOf 1 second) = Some recording /\
  existsb isErrorMessage (trace second) = false /\
  frameRequests inFlight = [(2%nat, 0%nat)] /\
  frameRequests second = [(3%nat, 1%nat)] /\
  r_promise (renderOf 1 final) = Fulfilled [] "video/webm;codecs=vp9" /\
  r_promise (renderOf 0 final) = Pending /\
  r_recorder (renderOf 0 final) = Some recording /\
  r_stopQueued (renderOf 0 final) = false.
Proof.
  cbv zeta. unfold rendersInFlight, rejectsAndPreserves.
  conjuncts; try (vm_compute; reflexivity).
  - exists 2%nat. vm_compute. split; [reflexivity | left; reflexivity].
  - intros [[message H] _]. vm_compute in H. discriminate.
Qed.

(** C4, amended: [renderVideo] has no guard against a render in flight.
    Called while the canvas is mounted, [MediaRecorder] is supported and the
    images are cached, it is not rejected, whatever is in flight: it starts a
    recorder of its own, cancels the frame callback that [animationRef]
    holds, restarts the clock at the current time, reports progress 0 and
    status [rendering], and requests a frame for itself.  The only rejection
    that says "not ready" is the one for a missing canvas element. *)
Theorem second_render_restarts_animation :
  forall (props : Props) (host : Host) (e : State),
    let id := List.length (renders e) in
    let e' := step props host e CallRenderVideo in
    (forall images,
        canvasRef e = true ->
        MEDIA_RECORDER_SUPPORT host = true ->
        getContext2d host = true ->
        recorderFailure host = None ->
        imageCacheRef e = Some images ->
        r_promise (renderOf id e') = Pending /\
        r_recorder (renderOf id e') = Some recording /\
        trace e' = trace e ++ [ProgressValue 0; StatusChange rendering] /\
        frameRequests e'
          = frameRequests (snd (cancelAnimation e)) ++ [(nextFrameId e, id)] /\
        animationRef e' = Some (nextFrameId e) /\
        startTimeRef e' = now e /\
        (forall handle earlier,
            animationRef e = Some handle -> handle <> 0%nat ->
            ~ In (handle, earlier) (frameRequests (snd (cancelAnimation e))))) /\
    (canvasRef e = false ->
     r_promise (renderOf id e') = Rejected "Canvas is not ready yet.").
Proof.
  intros props host e id e'. split.
  - intros images Hc Hs Hg Hr Hi. subst e' id.
    unfold step. run_monad.
    repeat (progress (fields; rewrite ?Hc, ?Hs, ?Hg, ?Hr, ?Hi)).
    rewrite !alter_new.
    destruct (animationRef e) as [[| h] |] eqn:E; cbn [Nat.eqb];
      fields; rewrite ?nth_new; fields; rewrite <- ?app_assoc; cbn [app];
      conjuncts; try reflexivity;
      intros handle earlier Heq Hnz; try discriminate Heq;
      injection Heq as <-; try congruence; apply filter_handle_absent.
  - intro Hc. subst e' id. unfold step. run_monad.
    fields. rewrite Hc. fields.
    rewrite alter_new, nth_new. reflexivity.
Qed.

Lemma second_render_restarts_animation_witness :
  r_promise (renderOf 1 (step studioProps sampleHost inFlight CallRenderVideo))
    = Pending /\
  ~ In (2%nat, 0%nat) (frameRequests (snd (cancelAnimation inFlight))) /\
  r_promise (renderOf 0 (step studioProps sampleHost detached CallRenderVideo))
    = Rejected "Canvas is not ready yet.".
Proof.
  pose proof (proj1 (second_render_restarts_animation studioProps sampleHost inFlight)
                sampleImages eq_refl eq_refl eq_refl eq_refl eq_refl) as H.
  destruct H as (Hp & _ & _ & _ & _ & _ & Hgone).
  split; [exact Hp |]. split.
  - apply (Hgone 2%nat 0%nat); [reflexivity | discriminate].
  - exact (proj2 (second_render_restarts_animation studioProps sampleHost detached)
             eq_refl).
Defined.

(** ** An empty scene list *)

(** With no scene, a frame below the configured duration saves and clears
    the canvas and then fails on [scene.duration]. *)
Lemma drawFrame_without_scenes (props : Props) (host : Host)
  images elapsedMs onComplete e :
  scenes props = [] ->
  elapsedMs < total props * 1000 ->
  drawFrame props host images elapsedMs onComplete e
  = (Throw "Cannot read properties of undefined (reading 'duration')",
     emit (Canvas (clearRect 0 0 (res_width (resolution props))
                     (res_height (resolution props))))
       (emit (Canvas save)
          (emit (ProgressValue (progressOf props elapsedMs)) e))).
Proof.
  intros Hs Hlt. unfold drawFrame. cbv zeta.
  rewrite (proj2 (geb_false elapsedMs (total props * 1000)) Hlt).
  rewrite Hs. reflexivity.
Qed.

Lemma Math_max_0 time : 0 <= time -> Math_max 0 time = time.
Proof.
  intro H. unfold Math_max. now rewrite (proj2 (Qle_bool_iff 0 time) H).
Qed.

(** C5, as stated, fails: with an empty scene list, a mounted canvas and a
    supporting browser, the call of [renderVideo] is not rejected and reports
    no error; once the (empty) image list has settled the recorder records
    and a frame is requested; the first frame then saves and clears the
    canvas and throws out of the frame callback, which ends the animation
    with the promise still pending. *)
Lemma empty_scene_list_counterexample :
  let called := step emptyProps sampleHost mounted CallRenderVideo in
  let capturing := step emptyProps sampleHost called (ImagesSettled 0 (Loaded [])) in
  let framed := step emptyProps sampleHost capturing (AnimationFrame 16) in
  scenes emptyProps = [] /\
  r_promise (renderOf 0 called) = Pending /\
  trace called = [StatusChange loading_assets] /\
  r_recorder (renderOf 0 capturing) = Some recording /\
  r_promise (renderOf 0 capturing) = Pending /\
  existsb isErrorMessage (trace capturing) = false /\
  added capturing framed
    = [ ProgressValue (progressOf emptyProps (16 - 0));
        Canvas save; Canvas (clearRect 0 0 1280 720);
        Uncaught "Cannot read properties of undefined (reading 'duration')" ] /\
  frameRequests framed = [] /\
  r_promise (renderOf 0 framed) = Pending.
Proof.
  cbv zeta. conjuncts; vm_compute; reflexivity.
Qed.

(** C5, amended: [renderVideo] does not validate the scene list.  With an
    empty list, a mounted canvas and a supporting browser the call is not
    rejected and reports no error; when the image list has settled, capture
    starts and the animation is scheduled; the failure comes per frame: the
    first frame below the configured duration clears the canvas, draws no
    scene and throws out of the frame callback, after which no frame is
    requested and the promise of the call stays pending. *)
Theorem empty_scene_list_fails_per_frame :
  forall (props : Props) (host : Host),
    scenes props = [] ->
    MEDIA_RECORDER_SUPPORT host = true ->
    getContext2d host = true ->
    recorderFailure host = None ->
    let called := step props host mounted CallRenderVideo in
    let capturing := step props host called (ImagesSettled 0 (Loaded [])) in
    r_promise (renderOf 0 called) = Pending /\
    trace called = [StatusChange loading_assets] /\
    r_promise (renderOf 0 capturing) = Pending /\
    r_recorder (renderOf 0 capturing) = Some recording /\
    frameRequests capturing = [(1%nat, 0%nat)] /\
    trace capturing
      = [StatusChange loading_assets; ProgressValue 0; StatusChange rendering] /\
    forall time : Q,
      0 <= time -> time < total props * 1000 ->
      let framed := step props host capturing (AnimationFrame time) in
      trace framed
        = trace capturing ++
          [ ProgressValue (progressOf props (time - 0));
            Canvas save;
            Canvas (clearRect 0 0 (res_width (resolution props))
                      (res_height (resolution props)));
            Uncaught "Cannot read properties of undefined (reading 'duration')" ] /\
      frameRequests framed = [] /\
      r_recorder (renderOf 0 framed) = Some recording /\
      r_promise (renderOf 0 framed) = Pending.
Proof.
  intros props host Hs Hm Hg Hr called capturing.
  assert (Ecalled : called =
    set_renders [with_awaiting true emptyRender]
      (emit (StatusChange loading_assets) mounted)).
  { subst called. unfold step. run_monad.
    repeat (progress (fields; rewrite ?Hm)). reflexivity. }
  assert (Ecapturing : capturing =
    {| canvasRef := true; animationRef := Some 1%nat;
       imageCacheRef := Some []; startTimeRef := 0; now := 0;
       nextFrameId := 2; frameRequests := [(1%nat, 0%nat)];
       renders :=
         [ with_state recording false
             (with_recorder [] (buildMimeType host) inactive
                (with_awaiting false (with_awaiting true emptyRender))) ];
       trace := [StatusChange loading_assets; ProgressValue 0;
                 StatusChange rendering] |}).
  { subst capturing. rewrite Ecalled. unfold step. run_monad.
    repeat (progress (fields; cbn [mounted nth alter]; rewrite ?Hg, ?Hr)).
    reflexivity. }
  rewrite Ecalled, Ecapturing.
  conjuncts; try reflexivity.
  intros time H0 Hlt framed.
  set (ready := {| canvasRef := true; animationRef := Some 1%nat;
                   imageCacheRef := Some []; startTimeRef := 0; now := 0;
                   nextFrameId := 2; frameRequests := [(1%nat, 0%nat)];
                   renders := _; trace := _ |}) in *.
  assert (Eframed : framed =
    emit (Uncaught "Cannot read properties of undefined (reading 'duration')")
      (emit (Canvas (clearRect 0 0 (res_width (resolution props))
                       (res_height (resolution props))))
         (emit (Canvas save)
            (emit (ProgressValue (progressOf props (time - 0)))
               (set_frames 2 [] (set_now time ready)))))).
  { subst framed. unfold step, animationFrame.
    replace (now ready) with 0 by reflexivity.
    rewrite (Math_max_0 time H0).
    replace (frameRequests (set_now time ready)) with [(1%nat, 0%nat)]
      by reflexivity.
    cbn [fold_left]. unfold runCallback.
    replace (frameRequests (set_now time ready)) with [(1%nat, 0%nat)]
      by reflexivity.
    cbn [existsb Nat.eqb orb fst snd].
    unfold bind at 1. unfold cancelAnimationFrame at 1. unfold modify at 1.
    replace (frameRequests (set_now time ready)) with [(1%nat, 0%nat)]
      by reflexivity.
    replace (nextFrameId (set_now time ready)) with 2%nat by reflexivity.
    cbn [filter Nat.eqb negb fst].
    unfold tick. unfold bind at 1. unfold get at 1.
    replace (canvasRef (set_frames 2 [] (set_now time ready))) with true
      by reflexivity.
    cbn [negb]. unfold bind at 1.
    replace (now (set_frames 2 [] (set_now time ready))) with time by reflexivity.
    replace (startTimeRef (set_frames 2 [] (set_now time ready))) with 0
      by reflexivity.
    rewrite (drawFrame_without_scenes props host _ (time - 0) _ _ Hs)
      by (unfold Qminus; rewrite Qplus_0_r; exact Hlt).
    reflexivity. }
  rewrite Eframed. conjuncts; reflexivity.
Qed.

Lemma empty_scene_list_fails_per_frame_witness :
  r_promise
    (renderOf 0
       (step emptyProps sampleHost
          (step emptyProps sampleHost
             (step emptyProps sampleHost mounted CallRenderVideo)
             (ImagesSettled 0 (Loaded [])))
          (AnimationFrame 16)))
  = Pending.
Proof.
  destruct (empty_scene_list_fails_per_frame emptyProps sampleHost
              eq_refl eq_refl eq_refl eq_refl)
    as (_ & _ & _ & _ & _ & _ & Hframe).
  apply (Hframe 16); vm_compute; first [reflexivity | discriminate].
Defined.

(** ** Failures of [renderVideo] *)

Lemma alter_length {A : Type} (f : A -> A) : forall (l : list A) id,
  List.length (alter f id l) = List.length l.
Proof.
  induction l as [| a l IH]; intros [| id]; simpl; try reflexivity.
  now rewrite IH.
Qed.

(** C6, as stated, fails: called without a canvas element, or in a browser
    without [MediaRecorder], [renderVideo] rejects its promise but neither
    calls [onError] nor reports the status [error]: the trace stays empty. *)
Lemma failure_channels_counterexample :
  let noCanvas := step studioProps sampleHost detached CallRenderVideo in
  let noRecorder := step studioProps hostWithoutRecorder mounted CallRenderVideo in
  r_promise (renderOf 0 noCanvas) = Rejected "Canvas is not ready yet." /\
  trace noCanvas = [] /\
  r_promise (renderOf 0 noRecorder)
    = Rejected "MediaRecorder API is not supported in this browser." /\
  trace noRecorder = [].
Proof.
  cbv zeta. conjuncts; vm_compute; reflexivity.
Qed.

(** C6, amended: the failures raised inside the [try] block of
    [renderVideo] (an image that does not load, a canvas without 2D context,
    a recorder that cannot be constructed) and the recorder's error event
    reach both channels: status [error] is reported, [onError] is called with
    the message, and the promise is rejected.  The two checks before the
    [try] block (canvas not ready, [MediaRecorder] not supported) reject the
    promise only: no [onError], no status. *)
Theorem failures_inside_try_reach_both_channels :
  forall (props : Props) (host : Host) (e : State),
    let id := List.length (renders e) in
    let called := step props host e CallRenderVideo in
    (canvasRef e = false ->
     r_promise (renderOf id called) = Rejected "Canvas is not ready yet." /\
     trace called = trace e) /\
    (canvasRef e = true -> MEDIA_RECORDER_SUPPORT host = false ->
     r_promise (renderOf id called)
       = Rejected "MediaRecorder API is not supported in this browser." /\
     trace called = trace e) /\
    (forall images,
        canvasRef e = true -> MEDIA_RECORDER_SUPPORT host = true ->
        imageCacheRef e = Some images -> getContext2d host = false ->
        r_promise (renderOf id called) = Rejected "Unable to access canvas context." /\
        trace called
          = trace e ++ [ StatusChange error;
                         ErrorMessage "Unable to access canvas context." ]) /\
    (forall images message,
        canvasRef e = true -> MEDIA_RECORDER_SUPPORT host = true ->
        imageCacheRef e = Some images -> getContext2d host = true ->
        recorderFailure host = Some message ->
        r_promise (renderOf id called) = Rejected message /\
        trace called = trace e ++ [StatusChange error; ErrorMessage message]) /\
    (forall earlier image,
        (earlier < id)%nat ->
        r_awaiting (renderOf earlier e) = true ->
        r_promise (renderOf earlier e) = Pending ->
        let failed := step props host e (ImagesSettled earlier (LoadFailed image)) in
        r_promise (renderOf earlier failed)
          = Rejected ("Failed to load image " ++ image) /\
        trace failed
          = trace e ++ [ StatusChange error;
                         ErrorMessage ("Failed to load image " ++ image) ]) /\
    (forall earlier state recorderError,
        (earlier < id)%nat ->
        r_recorder (renderOf earlier e) = Some state ->
        r_promise (renderOf earlier e) = Pending ->
        let failed := step props host e (RecorderError earlier recorderError) in
        let shown := match recorderError with
                     | Some message => message
                     | None => "Recording error encountered."%string
                     end in
        let thrown := match recorderError with
                      | Some message => message
                      | None => "Recording failed."%string
                      end in
        r_promise (renderOf earlier failed) = Rejected thrown /\
        trace failed
          = trace e ++ [ StatusChange error; ErrorMessage shown;
                         StatusChange error; ErrorMessage thrown ]).
Proof.
  intros props host e id called.
  split; [| split; [| split; [| split; [| split]]]].
  - intro Hc. subst called id. unfold step. run_monad.
    fields. rewrite Hc. fields. rewrite alter_new, nth_new. split; reflexivity.
  - intros Hc Hm. subst called id. unfold step. run_monad.
    repeat (progress (fields; rewrite ?Hc, ?Hm)).
    rewrite alter_new, nth_new. split; reflexivity.
  - intros images Hc Hm Hi Hg. subst called id. unfold step. run_monad.
    repeat (progress (fields; rewrite ?Hc, ?Hm, ?Hi, ?Hg)).
    rewrite alter_new, nth_new. fields. rewrite <- app_assoc. split; reflexivity.
  - intros images message Hc Hm Hi Hg Hr. subst called id. unfold step. run_monad.
    repeat (progress (fields; rewrite ?Hc, ?Hm, ?Hi, ?Hg, ?Hr)).
    rewrite alter_new, nth_new. fields. rewrite <- app_assoc. split; reflexivity.
  - intros earlier image Hlt Ha Hp failed. subst failed id.
    unfold step. rewrite Ha. unfold renderOf in *. run_monad. fields.
    rewrite !nth_alter_same by (rewrite ?alter_length; exact Hlt).
    fields. rewrite Hp. rewrite <- app_assoc. split; reflexivity.
  - intros earlier state recorderError Hlt Hs Hp failed shown thrown.
    subst failed id. unfold step. rewrite Hs. unfold onerror, renderOf in *.
    run_monad. fields.
    destruct (animationRef e) as [[| h] |]; cbn [Nat.eqb]; fields;
      rewrite !nth_alter_same by (rewrite ?alter_length; exact Hlt);
      fields; rewrite Hp; fields;
      rewrite !nth_alter_same by (rewrite ?alter_length; exact Hlt);
      fields; rewrite Hp; rewrite <- !app_assoc; split; reflexivity.
Qed.

Lemma failures_inside_try_reach_both_channels_witness :
  trace (step studioProps sampleHost detached CallRenderVideo) = trace detached /\
  trace (step studioProps sampleHost started (RecorderError 0 None))
    = trace started ++ [ StatusChange error;
                         ErrorMessage "Recording error encountered.";
                         StatusChange error; ErrorMessage "Recording failed." ].
Proof.
  split.
  - exact (proj2 (proj1 (failures_inside_try_reach_both_channels
                           studioProps sampleHost detached) eq_refl)).
  - destruct (failures_inside_try_reach_both_channels studioProps sampleHost started)
      as (_ & _ & _ & _ & _ & Herr).
    exact (proj2 (Herr 0%nat recording None ltac:(vm_compute; lia) eq_refl eq_refl)).
Defined.

(** * Further properties of the code *)

(** ** [clamp], progress and easing *)

Lemma clamp_monotone v1 v2 lo hi :
  lo <= hi -> v1 <= v2 -> clamp v1 lo hi <= clamp v2 lo hi.
Proof.
  intros Hlh Hv.
  destruct (clamp_cases v1 lo hi Hlh) as [[H1 ->] | [[H1 ->] | [H1 ->]]];
    destruct (clamp_cases v2 lo hi Hlh) as [[H2 ->] | [[H2 ->] | [H2 ->]]]; lra.
Qed.

(** X1: for bounds in order, [clamp] returns a value between them, leaves a
    value between them unchanged, is idempotent and is monotone in its
    first argument. *)
Theorem clamp_stays_within_bounds :
  forall v lo hi : Q,
    lo <= hi ->
    lo <= clamp v lo hi /\ clamp v lo hi <= hi /\
    (lo <= v -> v <= hi -> clamp v lo hi == v) /\
    clamp (clamp v lo hi) lo hi == clamp v lo hi /\
    (forall v', v <= v' -> clamp v lo hi <= clamp v' lo hi).
Proof.
  intros v lo hi Hlh.
  assert (Hin : lo <= clamp v lo hi /\ clamp v lo hi <= hi).
  { destruct (clamp_cases v lo hi Hlh) as [[H ->] | [[H ->] | [H ->]]]; lra. }
  destruct Hin as [H1 H2]. conjuncts; try assumption.
  - apply clamp_inside.
  - apply clamp_inside; assumption.
  - intros v' Hv. apply clamp_monotone; assumption.
Qed.

Lemma clamp_stays_within_bounds_witness :
  0 <= clamp (7 # 2) 0 1 /\ clamp (7 # 2) 0 1 <= 1.
Proof.
  destruct (clamp_stays_within_bounds (7 # 2) 0 1 ltac:(vm_compute; discriminate))
    as (H1 & H2 & _).
  split; assumption.
Defined.

Lemma progress_bounds (props : Props) elapsedMs :
  0 <= progressOf props elapsedMs /\ progressOf props elapsedMs <= 1.
Proof.
  unfold progressOf. cbv zeta.
  destruct (clamp_cases (elapsedMs / (total props * 1000)) 0 1 ltac:(lra))
    as [[H ->] | [[H ->] | [H ->]]]; lra.
Qed.

Lemma progress_monotone (props : Props) elapsedMs later :
  0 < total props -> elapsedMs <= later ->
  progressOf props elapsedMs <= progressOf props later.
Proof.
  intros Hpos Hl. unfold progressOf. cbv zeta.
  apply clamp_monotone; [lra |].
  unfold Qdiv. apply Qmult_le_compat_r; [exact Hl |].
  apply Qlt_le_weak. apply Qinv_lt_0_compat. lra.
Qed.



Lemma ease_range t : 0 <= t -> t <= 1 -> 0 <= easeInOutCubic t /\ easeInOutCubic t <= 1.
Proof.
  intros H0 H1. destruct (Qlt_le_dec t (1 # 2)) as [H | H].
  - rewrite (ease_low t H).
    assert (A : 0 <= t * t) by nra.
    assert (B : t * t <= (1 # 4)) by nra.
    split; nra.
  - rewrite (ease_high t H).
    set (u := - (2) * t + 2).
    assert (Hu0 : 0 <= u) by (unfold u; lra).
    assert (Hu1 : u <= 1) by (unfold u; lra).
    assert (A : 0 <= u * u) by nra.
    assert (B : u * u <= 1) by nra.
    assert (C : 0 <= u * u * u) by nra.
    assert (D : u * u * u <= 1) by nra.
    assert (E : (u * u * u) / 2 == (1 # 2) * (u * u * u)) by field.
    rewrite E. split; lra.
Qed.

(** X3: [easeInOutCubic] maps [0, 1] into [0, 1], its two branches meet at
    one half with the value one half, and it is point-symmetric about
    (1/2, 1/2): easing [1 - t] gives one minus easing [t], for every [t]. *)
Theorem ease_is_symmetric_and_bounded :
  (forall t, 0 <= t -> t <= 1 ->
     0 <= easeInOutCubic t /\ easeInOutCubic t <= 1) /\
  (easeInOutCubic (1 # 2) == 1 # 2 /\ 4 * (1 # 2) * (1 # 2) * (1 # 2) == 1 # 2) /\
  (forall t, easeInOutCubic (1 - t) == 1 - easeInOutCubic t).
Proof.
  split; [exact ease_range |]. split; [split; reflexivity |].
  intro t.
  destruct (Qlt_le_dec t (1 # 2)) as [H | H].
  - rewrite (ease_low t H), (ease_high (1 - t)) by lra. field.
  - destruct (Qlt_le_dec (1 # 2) t) as [H' | H'].
    + rewrite (ease_high t H), (ease_low (1 - t)) by lra. field.
    + assert (E : t == 1 # 2) by lra.
      rewrite (ease_high t H), (ease_high (1 - t)) by lra.
      rewrite E. reflexivity.
Qed.

Lemma ease_is_symmetric_and_bounded_witness :
  0 <= easeInOutCubic (3 # 4) /\ easeInOutCubic (3 # 4) <= 1.
Proof.
  apply (proj1 ease_is_symmetric_and_bounded); vm_compute; discriminate.
Defined.

(** ** The drawn image and the text fades *)








(** ** The resolver outside the timeline *)

Lemma sumDurations_nonneg l :
  Forall (fun s => 0 < duration s) l -> 0 <= sumDurations l.
Proof.
  induction 1 as [| s l Hs _ IH]; simpl; lra.
Qed.

Lemma sceneLoop_falls_through rest : forall i t acc dflt,
  Forall (fun s => 0 < duration s) rest ->
  t < acc \/ acc + sumDurations rest <= t ->
  fst (sceneLoop rest i t acc dflt) = dflt /\
  snd (sceneLoop rest i t acc dflt) == acc + sumDurations rest.
Proof.
  induction rest as [| s rest IH]; intros i t acc dflt Hpos Hout.
  - simpl. split; [reflexivity | lra].
  - inversion Hpos as [| ? ? Hs Hrest]; subst.
    pose proof (sumDurations_nonneg rest Hrest) as Hn.
    simpl in *.
    assert (E : geb t acc && ltb t (acc + duration s) = false).
    { apply andb_false_iff. destruct Hout as [H | H].
      - left. apply geb_false. exact H.
      - right. apply ltb_false. lra. }
    rewrite E.
    destruct (IH (i + 1)%Z t (acc + duration s) dflt Hrest) as [H1 H2].
    { destruct Hout as [H | H]; [left | right]; lra. }
    split; [exact H1 | rewrite H2; lra].
Qed.

Lemma sceneLoop_index rest : forall i t acc dflt,
  fst (sceneLoop rest i t acc dflt) = dflt \/
  (i <= fst (sceneLoop rest i t acc dflt)
   < i + Z.of_nat (List.length rest))%Z.
Proof.
  induction rest as [| s rest IH]; intros i t acc dflt; simpl.
  - left. reflexivity.
  - destruct (geb t acc && ltb t (acc + duration s)).
    + right. simpl. lia.
    + destruct (IH (i + 1)%Z t (acc + duration s) dflt) as [H | H];
        [left; exact H | right; lia].
Qed.

(** X6: outside the timeline the loop selects the last scene and leaves
    [accumulated] at the sum of all durations: for positive durations and an
    elapsed time that is negative or at least that sum, the index is
    [scenes.length - 1] and [sceneElapsed] is the elapsed time minus the sum,
    the time since the end of the last scene and not since its start. *)
Theorem resolver_outside_timeline :
  forall (scenes : list SceneConfig) (t : Q),
    Forall (fun s => 0 < duration s) scenes ->
    t < 0 \/ sumDurations scenes <= t ->
    fst (resolveScene scenes t) = (Z.of_nat (List.length scenes) - 1)%Z /\
    snd (resolveScene scenes t) == sumDurations scenes /\
    sceneElapsedOf scenes t == t - sumDurations scenes.
Proof.
  intros scenes t Hpos Hout. unfold sceneElapsedOf, resolveScene.
  destruct (sceneLoop_falls_through scenes 0%Z t 0
              (Z.of_nat (List.length scenes) - 1)%Z Hpos) as [H1 H2].
  { destruct Hout as [H | H]; [left | right]; lra. }
  split; [exact H1 |]. split; rewrite H2; lra.
Qed.

Lemma resolver_outside_timeline_witness :
  fst (resolveScene SCENES 45) = 4%Z /\ sceneElapsedOf SCENES 45 == 45 - 30.
Proof.
  destruct (resolver_outside_timeline SCENES 45) as (H1 & _ & H3).
  - repeat constructor.
  - right. vm_compute. discriminate.
  - split; [exact H1 | exact H3].
Defined.

Lemma Math_round_le x y : x <= y -> (Math_round x <= Math_round y)%Z.
Proof.
  intro H. unfold Math_round. apply Qfloor_resp_le. lra.
Qed.

(** X7: the seconds readout is a whole number from 0 to 30 on every frame,
    whatever the configured duration, and for a positive configured duration
    it never decreases when the elapsed time does not. *)
Theorem readout_stays_within_0_and_30 :
  forall (props : Props) (elapsedMs : Q),
    (0 <= readoutSeconds (progressOf props elapsedMs) <= 30)%Z /\
    (0 < total props ->
     forall later, elapsedMs <= later ->
       (readoutSeconds (progressOf props elapsedMs)
        <= readoutSeconds (progressOf props later))%Z).
Proof.
  intros props elapsedMs.
  destruct (progress_bounds props elapsedMs) as [H0 H1].
  unfold readoutSeconds. split; [split |].
  - exact (Math_round_le 0 (progressOf props elapsedMs * 30) ltac:(lra)).
  - exact (Math_round_le (progressOf props elapsedMs * 30) 30 ltac:(lra)).
  - intros Hpos later Hl. apply Math_round_le.
    pose proof (progress_monotone props elapsedMs later Hpos Hl). lra.
Qed.

Lemma readout_stays_within_0_and_30_witness :
  (readoutSeconds (progressOf longProps 10000)
   <= readoutSeconds (progressOf longProps 50000))%Z.
Proof.
  apply (proj2 (readout_stays_within_0_and_30 longProps 10000));
    [reflexivity | vm_compute; discriminate].
Defined.

(** ** Lines of [wrapText] *)

Lemma groupLoop_length measure maxWidth : forall words n current,
  (1 <= List.length (groupLoop measure maxWidth words n current)
   <= S (List.length words))%nat.
Proof.
  induction words as [| word words IH]; intros n current; simpl; [lia |].
  destruct (_ && _); simpl.
  - specialize (IH (S n) [word]). lia.
  - specialize (IH (S n) (current ++ [word])). lia.
Qed.

Lemma wrapGroups_length measure maxWidth words :
  words <> [] ->
  (1 <= List.length (wrapGroups measure maxWidth words) <= List.length words)%nat.
Proof.
  intro Hne. destruct words as [| word words]; [congruence |].
  unfold wrapGroups. simpl. rewrite andb_false_r.
  pose proof (groupLoop_length measure maxWidth words 1 [word]). simpl. lia.
Qed.

Lemma linesAt_length x y lineHeight groups :
  List.length (linesAt x y lineHeight groups) = List.length groups.
Proof.
  revert y. induction groups as [| g groups IH]; intro y; simpl;
    [reflexivity | now rewrite IH].
Qed.

Lemma linesAt_nth x lineHeight groups : forall y k op,
  nth_error (linesAt x y lineHeight groups) k = Some op ->
  exists group lineY,
    nth_error groups k = Some group /\
    op = fillText (trim (joined group)) x lineY /\
    lineY == y + inject_Z (Z.of_nat k) * lineHeight.
Proof.
  induction groups as [| g groups IH]; intros y k op H.
  - destruct k; discriminate.
  - destruct k as [| k]; simpl in H.
    + injection H as <-. exists g, y. simpl. repeat split; try reflexivity.
      change (inject_Z 0) with 0. lra.
    + destruct (IH (y + lineHeight) k op H) as (group & lineY & Hg & Hop & Hy).
      exists group, lineY. simpl nth_error. repeat split; try assumption.
      rewrite Hy. rewrite Nat2Z.inj_succ. unfold Z.succ.
      rewrite inject_Z_plus. change (inject_Z 1) with 1. lra.
Qed.

Lemma wrapText_linesAt measure text x y maxWidth lineHeight :
  wrapText measure text x y maxWidth lineHeight
  = linesAt x y lineHeight (wrapGroups measure maxWidth (split_space text)).
Proof.
  unfold wrapText.
  exact (wrapLoop_groupLoop measure x maxWidth lineHeight
           (split_space text) 0%nat [] EmptyString y eq_refl).
Qed.

(** X8: [wrapText] draws at least one line and at most as many lines as the
    text has words; each call is a [fillText] at the given [x], and line
    number [k] (from 0) is drawn at [y + k * lineHeight]. *)
Theorem wrapText_lines_are_stacked :
  forall (measure : string -> Q) (text : string) (x y maxWidth lineHeight : Q),
    let ops := wrapText measure text x y maxWidth lineHeight in
    (1 <= List.length ops <= List.length (split_space text))%nat /\
    forall k op,
      nth_error ops k = Some op ->
      exists line lineY,
        op = fillText line x lineY /\
        lineY == y + inject_Z (Z.of_nat k) * lineHeight.
Proof.
  intros measure text x y maxWidth lineHeight ops. subst ops.
  rewrite wrapText_linesAt. split.
  - rewrite linesAt_length. apply wrapGroups_length. apply split_space_nonempty.
  - intros k op H.
    destruct (linesAt_nth x lineHeight _ y k op H) as (g & lineY & _ & Hop & Hy).
    exists (trim (joined g)), lineY. split; assumption.
Qed.

Lemma split_space_joined text : joined (split_space text) = (text ++ " ")%string.
Proof.
  induction text as [| c text IH]; [reflexivity |].
  simpl. destruct (Ascii.eqb c space) eqn:E.
  - apply Ascii.eqb_eq in E. subst c. simpl. now rewrite IH.
  - destruct (split_space text) as [| w ws] eqn:Es.
    + exfalso. exact (split_space_nonempty text Es).
    + simpl in *. now rewrite IH.
Qed.

Lemma trimEnd_space s : trimEnd (s ++ " ") = trimEnd s.
Proof.
  induction s as [| c s IH]; [reflexivity |].
  simpl. now rewrite IH.
Qed.

Lemma trim_space s : trim (s ++ " ") = trim s.
Proof.
  unfold trim. induction s as [| c s IH]; [reflexivity |].
  simpl. destruct (is_white c).
  - exact IH.
  - change (String c (s ++ " "))%string with (String c s ++ " ")%string.
    apply trimEnd_space.
Qed.

Lemma groupLoop_all_fit measure maxWidth : forall words n current,
  (forall k, measure (joined (current ++ firstn k words)) <= maxWidth) ->
  groupLoop measure maxWidth words n current = [current ++ words].
Proof.
  induction words as [| word words IH]; intros n current Hfit; simpl.
  - now rewrite app_nil_r.
  - assert (E : ltb maxWidth (measure (joined current ++ word ++ " ")%string) = false).
    { apply ltb_false. rewrite <- joined_snoc. exact (Hfit 1%nat). }
    rewrite E. simpl.
    rewrite (IH (S n) (current ++ [word])).
    + now rewrite <- app_assoc.
    + intro k. rewrite <- app_assoc. exact (Hfit (S k)).
Qed.

(** X9: a text is drawn on one line, as the trimmed text at [(x, y)], when
    every line of its leading words measures at most [maxWidth], and also
    when it has a single word (no space), whatever that word measures. *)
Theorem wrapText_single_line :
  forall (measure : string -> Q) (text : string) (x y maxWidth lineHeight : Q),
    ((forall k, measure (joined (firstn k (split_space text))) <= maxWidth) ->
     wrapText measure text x y maxWidth lineHeight = [fillText (trim text) x y]) /\
    (List.length (split_space text) = 1%nat ->
     wrapText measure text x y maxWidth lineHeight = [fillText (trim text) x y]).
Proof.
  intros measure text x y maxWidth lineHeight. split.
  - intro Hfit. rewrite wrapText_linesAt. unfold wrapGroups.
    rewrite (groupLoop_all_fit measure maxWidth (split_space text) 0 [] Hfit).
    simpl. now rewrite split_space_joined, trim_space.
  - intro Hone. rewrite wrapText_linesAt. unfold wrapGroups.
    pose proof (split_space_joined text) as Hj.
    destruct (split_space text) as [| w [| w' ws]]; try discriminate.
    simpl. rewrite andb_false_r. simpl in *.
    now rewrite Hj, trim_space.
Qed.

Lemma wrapText_single_line_witness :
  wrapText charWidth "d e" 110 620 60 40 = [fillText (trim "d e") 110 620] /\
  wrapText charWidth "Burj" 110 620 10 40 = [fillText (trim "Burj") 110 620].
Proof.
  split.
  - apply (proj1 (wrapText_single_line charWidth "d e" 110 620 60 40)).
    intros [| [| [| k]]]; vm_compute; discriminate.
  - apply (proj2 (wrapText_single_line charWidth "Burj" 110 620 10 40)).
    reflexivity.
Defined.

(** ** A drawn frame *)

Lemma each_ctx ops : forall e, each ctx ops e = (Ok tt, emits (map Canvas ops) e).
Proof.
  induction ops as [| op ops IH]; intro e; [reflexivity |].
  simpl. unfold bind, ctx at 1, modify. apply IH.
Qed.

Lemma last_app_nonempty {A : Type} (l1 l2 : list A) (d : A) :
  l2 <> [] -> last (l1 ++ l2) d = last l2 d.
Proof.
  intro Hne. induction l1 as [| a l1 IH]; [reflexivity |].
  simpl. rewrite IH. destruct (l1 ++ l2) eqn:E; [| reflexivity].
  apply app_eq_nil in E. destruct E. congruence.
Qed.

Lemma paint_ends_with_restore (props : Props) (host : Host) scene image se progress :
  last (paint props host scene image se progress) save = restore.
Proof.
  unfold paint. cbv zeta.
  repeat (rewrite last_app_nonempty;
          [| first [discriminate
                   | intro E; apply app_eq_nil in E; destruct E as [_ E];
                     revert E]]);
    try reflexivity.
  all: repeat (intro E; apply app_eq_nil in E; destruct E as [_ E]; revert E);
    discriminate.
Qed.

(** X10: with a non-empty scene list and at least as many images as scenes,
    a frame below the configured duration is always drawn completely:
    [drawFrame] does not throw and does not call [onComplete], whatever the
    durations and the elapsed time; it reports the progress, saves the
    context, clears the whole canvas, paints one scene of the list with the
    image of the same index, and its last context call is [restore]. *)
Theorem drawFrame_draws_a_whole_frame :
  forall (props : Props) (host : Host) (images : list Image) (elapsedMs : Q)
         (onComplete : M unit) (e : State),
    scenes props <> [] ->
    (List.length (scenes props) <= List.length images)%nat ->
    elapsedMs < total props * 1000 ->
    exists (index : nat) (scene : SceneConfig) (image : Image),
      fst (resolveScene (scenes props) (elapsedMs / 1000)) = Z.of_nat index /\
      nth_error (scenes props) index = Some scene /\
      nth_error images index = Some image /\
      let ops :=
        paint props host scene image
          (elapsedMs / 1000 - snd (resolveScene (scenes props) (elapsedMs / 1000)))
          (progressOf props elapsedMs) in
      drawFrame props host images elapsedMs onComplete e
      = (Ok tt,
         emits (ProgressValue (progressOf props elapsedMs)
                  :: Canvas save
                  :: Canvas (clearRect 0 0 (res_width (resolution props))
                               (res_height (resolution props)))
                  :: map Canvas ops) e) /\
      last ops save = restore.
Proof.
  intros props host images elapsedMs onComplete e Hne Hlen Hlt.
  pose proof (sceneLoop_index (scenes props) 0%Z (elapsedMs / 1000) 0
                (Z.of_nat (List.length (scenes props)) - 1)%Z) as Hidx.
  fold (resolveScene (scenes props) (elapsedMs / 1000)) in Hidx.
  assert (Hpos : (0 < List.length (scenes props))%nat)
    by (destruct (scenes props); [congruence | simpl; lia]).
  set (r := resolveScene (scenes props) (elapsedMs / 1000)) in *.
  assert (Hrange : (0 <= fst r < Z.of_nat (List.length (scenes props)))%Z)
    by (destruct Hidx as [-> | H]; lia).
  exists (Z.to_nat (fst r)).
  destruct (nth_error (scenes props) (Z.to_nat (fst r))) as [scene |] eqn:Es.
  2: { apply nth_error_None in Es. lia. }
  destruct (nth_error images (Z.to_nat (fst r))) as [image |] eqn:Ei.
  2: { apply nth_error_None in Ei. lia. }
  exists scene, image. split; [lia |]. split; [reflexivity |].
  split; [reflexivity |]. cbv zeta. split; [| apply paint_ends_with_restore].
  unfold drawFrame. cbv zeta.
  rewrite (proj2 (geb_false elapsedMs (total props * 1000)) Hlt).
  fold r. destruct r as [sceneIndex accumulated] eqn:Er. simpl fst in *. simpl snd.
  unfold bind at 1. unfold notifyProgress at 1, modify at 1.
  unfold bind at 1. unfold ctx at 1, modify at 1.
  unfold bind at 1. unfold ctx at 1, modify at 1.
  unfold js_get. destruct (sceneIndex <? 0)%Z eqn:En; [apply Z.ltb_lt in En; lia |].
  rewrite Es, Ei. unfold bind at 1. unfold deref at 1, ret at 1.
  unfold bind at 1. unfold deref at 1, ret at 1.
  rewrite each_ctx. reflexivity.
Qed.

Lemma drawFrame_draws_a_whole_frame_witness :
  fst (drawFrame studioProps sampleHost sampleImages 29999 (throw "never") mounted)
  = Ok tt.
Proof.
  destruct (drawFrame_draws_a_whole_frame studioProps sampleHost sampleImages
              29999 (throw "never") mounted
              ltac:(discriminate) ltac:(vm_compute; lia)
              ltac:(vm_compute; reflexivity))
    as (index & scene & image & _ & _ & _ & H & _).
  rewrite H. reflexivity.
Defined.

(** ** Choice of the recording format *)

(** X11: [buildMimeType] answers plain WebM or one of the three codecs
    asked for; a codec it answers is one the browser reported as supported,
    and no codec earlier in the order vp9, vp8, h264 is supported; without
    [MediaRecorder], or with none of the three supported, it answers plain
    WebM. *)
Theorem buildMimeType_prefers_supported_codecs :
  forall host : Host,
    let mimeType := buildMimeType host in
    (mimeType = "video/webm"%string /\
     (MEDIA_RECORDER_SUPPORT host = false \/
      forall codec, In codec preferredTypes -> isTypeSupported host codec = false))
    \/
    (exists k,
        nth_error preferredTypes k = Some mimeType /\
        MEDIA_RECORDER_SUPPORT host = true /\
        isTypeSupported host mimeType = true /\
        forall j codec, (j < k)%nat -> nth_error preferredTypes j = Some codec ->
                        isTypeSupported host codec = false).
Proof.
  intro host. unfold buildMimeType. cbv zeta.
  destruct (MEDIA_RECORDER_SUPPORT host) eqn:Hm; cbn [negb].
  2: { left. split; [reflexivity | left; reflexivity]. }
  destruct (isTypeSupported host "video/webm;codecs=vp9") eqn:H9.
  { right. exists 0%nat. conjuncts; try reflexivity; try assumption.
    intros j codec Hj. lia. }
  destruct (isTypeSupported host "video/webm;codecs=vp8") eqn:H8.
  { right. exists 1%nat. conjuncts; try reflexivity; try assumption.
    intros [| j] codec Hj E; [| lia]. injection E as <-. exact H9. }
  destruct (isTypeSupported host "video/webm;codecs=h264") eqn:H4.
  { right. exists 2%nat. conjuncts; try reflexivity; try assumption.
    intros [| [| j]] codec Hj E; try lia; injection E as <-; assumption. }
  left. split; [reflexivity | right].
  intros codec [<- | [<- | [<- | []]]]; assumption.
Qed.

(** ** Stopping *)

(** X12: [cancelAnimation] never throws and is idempotent: a second call
    right after the first changes nothing.  It changes neither the trace nor
    the renders, and when [animationRef] held a handle no callback with that
    handle is pending afterwards and [animationRef] is cleared. *)
Theorem cancelAnimation_is_idempotent :
  forall e : State,
    exists e1,
      cancelAnimation e = (Ok tt, e1) /\
      cancelAnimation e1 = (Ok tt, e1) /\
      trace e1 = trace e /\ renders e1 = renders e /\
      nextFrameId e1 = nextFrameId e /\
      (forall handle, animationRef e = Some handle -> handle <> 0%nat ->
         animationRef e1 = None /\
         forall id, ~ In (handle, id) (frameRequests e1)).
Proof.
  intro e. run_monad. destruct (animationRef e) as [[| h] |] eqn:E; cbn [Nat.eqb].
  - exists e. rewrite E. cbn [Nat.eqb]. conjuncts; try reflexivity.
    intros handle Hh Hnz. congruence.
  - eexists. split; [reflexivity |]. fields. conjuncts; try reflexivity.
    intros handle Hh Hnz. injection Hh as <-. split; [reflexivity |].
    intro id. apply filter_handle_absent.
  - exists e. rewrite E. conjuncts; try reflexivity.
    intros handle Hh. discriminate.
Qed.

Lemma recorder_in_range id (l : list Render) state :
  r_recorder (nth id l emptyRender) = Some state -> (id < List.length l)%nat.
Proof.
  intro H. destruct (Nat.lt_ge_cases id (List.length l)) as [Hlt | Hge];
    [exact Hlt |].
  rewrite (nth_overflow l emptyRender Hge) in H. discriminate.
Qed.

(** X13: the completion callback that [renderVideo] passes on, which stops
    the recorder unless it is inactive, is idempotent and never throws: after
    one call the recorder of the render is not recording, and a second call
    changes nothing; on a recording recorder the first call makes it
    inactive and queues its stop event. *)
Theorem stopRecorder_is_idempotent :
  forall (id : nat) (e : State),
    exists e1,
      stopRecorder id e = (Ok tt, e1) /\
      stopRecorder id e1 = (Ok tt, e1) /\
      r_recorder (renderOf id e1) <> Some recording /\
      (r_recorder (renderOf id e) = Some recording ->
       r_recorder (renderOf id e1) = Some inactive /\
       r_stopQueued (renderOf id e1) = true) /\
      (r_recorder (renderOf id e) <> Some recording -> e1 = e).
Proof.
  intros id e. unfold stopRecorder at 1. unfold bind at 1, get at 1.
  destruct (r_recorder (renderOf id e)) as [[|] |] eqn:E.
  - exists e. unfold stopRecorder, bind, get. rewrite E.
    conjuncts; try reflexivity; try congruence.
  - pose proof (recorder_in_range id (renders e) recording E) as Hlt.
    eexists. split; [reflexivity |].
    assert (Hr : r_recorder
                   (renderOf id
                      (set_renders (alter (with_state inactive true) id (renders e)) e))
                 = Some inactive).
    { unfold renderOf in *. fields. rewrite nth_alter_same by exact Hlt.
      fields. rewrite E. reflexivity. }
    unfold update, modify. cbn [snd]. unfold stopRecorder, bind, get. rewrite Hr.
    conjuncts; try reflexivity; try congruence.
    + intros _. split; [reflexivity |].
      unfold renderOf. fields. rewrite nth_alter_same by exact Hlt. reflexivity.
  - exists e. unfold stopRecorder, bind, get. rewrite E.
    conjuncts; try reflexivity; try congruence.
Qed.

(** ** Calls that fail *)



(** ** Properties kept by every operation *)

Lemma invariant_ret {A : Type} (P : State -> Prop) (a : A) : invariant P (ret a).
Proof. intros e H. exact H. Qed.

Lemma invariant_throw {A : Type} (P : State -> Prop) message :
  invariant P (@throw A message).
Proof. intros e H. exact H. Qed.

Lemma invariant_get (P : State -> Prop) : invariant P get.
Proof. intros e H. exact H. Qed.

Lemma invariant_modify (P : State -> Prop) (f : State -> State) :
  (forall e, P e -> P (f e)) -> invariant P (modify f).
Proof. intros Hf e H. exact (Hf e H). Qed.

Lemma invariant_bind {A B : Type} (P : State -> Prop) (m : M A) (k : A -> M B) :
  invariant P m -> (forall a, invariant P (k a)) -> invariant P (bind m k).
Proof.
  intros Hm Hk e H. unfold bind. specialize (Hm e H).
  destruct (m e) as [[a | msg] e']; [apply Hk |]; exact Hm.
Qed.

Lemma invariant_try_catch {A : Type} (P : State -> Prop) (m : M A) handler :
  invariant P m -> (forall message, invariant P (handler message)) ->
  invariant P (try_catch m handler).
Proof.
  intros Hm Hh e H. unfold try_catch. specialize (Hm e H).
  destruct (m e) as [[a | msg] e']; [| apply Hh]; exact Hm.
Qed.

Lemma invariant_each {A : Type} (P : State -> Prop) (f : A -> M unit) l :
  (forall a, invariant P (f a)) -> invariant P (each f l).
Proof.
  intro Hf. induction l as [| a l IH]; simpl.
  - apply invariant_ret.
  - apply invariant_bind; [apply Hf | intros _; exact IH].
Qed.

Section Kept.

Variable P : State -> Prop.

Hypothesis P_canvasRef : forall v e, P e -> P (set_canvasRef v e).
Hypothesis P_animationRef : forall v e, P e -> P (set_animationRef v e).
Hypothesis P_imageCacheRef :
  forall images e, P e -> P (set_imageCacheRef (Some images) e).
Hypothesis P_startTimeRef : forall v e, P e -> P (set_startTimeRef v e).
Hypothesis P_now : forall v e, P e -> P (set_now v e).
Hypothesis P_frames : forall next q e, P e -> P (set_frames next q e).
Hypothesis P_emit : forall ev e, ordinaryEvent ev -> P e -> P (emit ev e).
Hypothesis P_loading :
  forall e, imageCacheRef e = None -> P e -> P (emit (StatusChange loading_assets) e).
Hypothesis P_alter :
  forall f id e, keepsSettled f -> P e -> P (set_renders (alter f id (renders e)) e).
Hypothesis P_new : forall e, P e -> P (set_renders (renders e ++ [emptyRender]) e).

Variable props : Props.
Variable host : Host.

Lemma kept_notifyStatus status :
  status <> loading_assets -> invariant P (notifyStatus status).
Proof.
  intro Hs. apply invariant_modify. intros e. apply P_emit.
  destruct status; try exact I. congruence.
Qed.

Lemma kept_notifyProgress value :
  0 <= value -> value <= 1 -> invariant P (notifyProgress value).
Proof. intros H0 H1. apply invariant_modify. intros e. apply P_emit. split; assumption. Qed.

Lemma kept_onError message : invariant P (onError message).
Proof. apply invariant_modify. intros e. apply P_emit. exact I. Qed.

Lemma kept_ctx op : invariant P (ctx op).
Proof. apply invariant_modify. intros e. apply P_emit. exact I. Qed.

Lemma kept_update id f : keepsSettled f -> invariant P (update id f).
Proof. intro Hf. apply invariant_modify. intros e. apply P_alter. exact Hf. Qed.

Lemma kept_cancelAnimationFrame handle : invariant P (cancelAnimationFrame handle).
Proof. apply invariant_modify. intros e. apply P_frames. Qed.

Lemma kept_requestAnimationFrame id : invariant P (requestAnimationFrame id).
Proof. intros e H. apply P_frames. exact H. Qed.

Lemma kept_cancelAnimation : invariant P cancelAnimation.
Proof.
  apply invariant_bind; [apply invariant_get | intro e0].
  destruct (animationRef e0) as [[| h] |]; cbn [Nat.eqb];
    try apply invariant_ret.
  apply invariant_bind; [apply kept_cancelAnimationFrame | intros _].
  apply invariant_modify. intros e. apply P_animationRef.
Qed.

Lemma kept_drawFrame images elapsedMs onComplete :
  invariant P onComplete -> invariant P (drawFrame props host images elapsedMs onComplete).
Proof.
  intro Hc. unfold drawFrame. cbv zeta.
  destruct (progress_bounds props elapsedMs) as [H0 H1].
  apply invariant_bind; [apply kept_notifyProgress; assumption | intros _].
  destruct (geb elapsedMs (total props * 1000)); [exact Hc |].
  apply invariant_bind; [apply kept_ctx | intros _].
  apply invariant_bind; [apply kept_ctx | intros _].
  destruct (resolveScene (scenes props) (elapsedMs / 1000)) as [sceneIndex accumulated].
  apply invariant_bind.
  { destruct (js_get (scenes props) sceneIndex);
      [apply invariant_ret | apply invariant_throw]. }
  intro scene. apply invariant_bind.
  { destruct (js_get images sceneIndex);
      [apply invariant_ret | apply invariant_throw]. }
  intro image. apply invariant_each. apply kept_ctx.
Qed.

Lemma keepsSettled_with_state st q : keepsSettled (with_state st q).
Proof. intros r H. reflexivity. Qed.

Lemma keepsSettled_with_awaiting v : keepsSettled (with_awaiting v).
Proof. intros r H. reflexivity. Qed.

Lemma keepsSettled_with_recorder images mimeType st :
  keepsSettled (with_recorder images mimeType st).
Proof. intros r H. reflexivity. Qed.

Lemma keepsSettled_with_chunk size : keepsSettled (with_chunk size).
Proof. intros r H. reflexivity. Qed.

Lemma keepsSettled_with_trackStop : keepsSettled with_trackStop.
Proof. intros r H. reflexivity. Qed.

Lemma keepsSettled_with_settlement s : keepsSettled (with_settlement s).
Proof. intros r H. simpl. destruct (r_promise r); [congruence | |]; reflexivity. Qed.

Lemma kept_stopRecorder id : invariant P (stopRecorder id).
Proof.
  apply invariant_bind; [apply invariant_get | intro e0].
  destruct (r_recorder (renderOf id e0)) as [[|] |]; try apply invariant_ret.
  apply kept_update. apply keepsSettled_with_state.
Qed.

Lemma kept_tick id : invariant P (tick props host id).
Proof.
  apply invariant_bind; [apply invariant_get | intro e0].
  destruct (negb (canvasRef e0)); [apply invariant_ret |].
  apply invariant_bind.
  - apply kept_drawFrame.
    apply invariant_bind; [apply kept_stopRecorder | intros _].
    apply invariant_bind; [apply kept_cancelAnimation | intros _].
    apply invariant_bind; [apply kept_notifyStatus; discriminate | intros _].
    apply kept_notifyProgress; lra.
  - intros _. apply invariant_bind; [apply kept_requestAnimationFrame | intro h].
    apply invariant_modify. intros e. apply P_animationRef.
Qed.

Lemma kept_startAnimation id : invariant P (startAnimation id).
Proof.
  apply invariant_bind; [apply kept_cancelAnimation | intros _].
  apply invariant_bind; [apply invariant_get | intro e0].
  apply invariant_bind;
    [apply invariant_modify; intros e; apply P_startTimeRef | intros _].
  apply invariant_bind; [apply kept_notifyProgress; lra | intros _].
  apply invariant_bind; [apply kept_notifyStatus; discriminate | intros _].
  apply invariant_bind; [apply kept_requestAnimationFrame | intro h].
  apply invariant_modify. intros e. apply P_animationRef.
Qed.

Lemma kept_capture id images : invariant P (capture host id images).
Proof.
  apply invariant_bind; [apply invariant_get | intro e0].
  destruct (negb (canvasRef e0)); [apply invariant_throw |].
  destruct (negb (getContext2d host)); [apply invariant_throw |].
  cbv zeta. destruct (recorderFailure host); [apply invariant_throw |].
  apply invariant_bind;
    [apply kept_update; apply keepsSettled_with_recorder | intros _].
  apply invariant_bind;
    [apply kept_update; apply keepsSettled_with_state | intros _].
  apply kept_startAnimation.
Qed.

Lemma kept_catch message : invariant P (catch message).
Proof.
  apply invariant_bind; [apply kept_notifyStatus; discriminate | intros _].
  apply invariant_bind; [apply kept_onError | intros _].
  apply invariant_throw.
Qed.

Lemma kept_async id body : invariant P body -> forall e, P e -> P (async id body e).
Proof.
  intros Hb e H. unfold async. specialize (Hb e H).
  destruct (body e) as [[a | message] e']; [exact Hb |].
  apply P_alter; [apply keepsSettled_with_settlement | exact Hb].
Qed.

Lemma kept_renderVideo id : invariant P (renderVideo host id).
Proof.
  apply invariant_bind; [apply invariant_get | intro e0].
  apply invariant_bind.
  { destruct (negb (canvasRef e0)); [apply invariant_throw | apply invariant_ret]. }
  intros _. apply invariant_bind.
  { destruct (negb (MEDIA_RECORDER_SUPPORT host));
      [apply invariant_throw | apply invariant_ret]. }
  intros _. apply invariant_try_catch; [| apply kept_catch].
  apply invariant_bind.
  - intros e1 H1. unfold loadImages, bind, get.
    destruct (imageCacheRef e1) eqn:Ec; [exact H1 |].
    apply P_loading; assumption.
  - intros [images |]; [apply kept_capture |].
    apply kept_update. apply keepsSettled_with_awaiting.
Qed.

Lemma kept_renderVideo_resumed id r : invariant P (renderVideo_resumed host id r).
Proof.
  apply invariant_bind;
    [apply kept_update; apply keepsSettled_with_awaiting | intros _].
  apply invariant_try_catch; [| apply kept_catch].
  apply invariant_bind; [| intro images; apply kept_capture].
  destruct r as [images | image]; simpl; [| apply invariant_throw].
  apply invariant_bind; [| intros _; apply invariant_ret].
  apply invariant_modify. intros e. apply P_imageCacheRef.
Qed.

Lemma kept_onerror id recorderError e : P e -> P (onerror id recorderError e).
Proof.
  intro H. unfold onerror. cbv zeta.
  match goal with
  | |- context [snd (?handler e)] =>
      assert (Hh : P (snd (handler e)));
        [| destruct (r_promise (renderOf id (snd (handler e))));
           [apply kept_async; [apply kept_catch | exact Hh] | exact Hh | exact Hh]]
  end.
  revert e H. change (invariant P
    (cancelAnimation ;; update id with_trackStop ;; notifyStatus error ;;
     onError (match recorderError with
              | Some message => message
              | None => "Recording error encountered."%string
              end))).
  apply invariant_bind; [apply kept_cancelAnimation | intros _].
  apply invariant_bind;
    [apply kept_update; apply keepsSettled_with_trackStop | intros _].
  apply invariant_bind; [apply kept_notifyStatus; discriminate | intros _].
  apply kept_onError.
Qed.

Lemma kept_onstop id : invariant P (onstop id).
Proof.
  apply invariant_bind;
    [apply kept_update; apply keepsSettled_with_trackStop | intros _].
  apply invariant_bind; [apply invariant_get | intro e0].
  apply kept_update. apply keepsSettled_with_settlement.
Qed.

Lemma kept_runCallback e request : P e -> P (runCallback props host e request).
Proof.
  intro H. unfold runCallback.
  destruct (existsb _ (frameRequests e)); [| exact H].
  assert (Hi : invariant P (cancelAnimationFrame (fst request) ;; tick props host (snd request))).
  { apply invariant_bind; [apply kept_cancelAnimationFrame | intros _].
    apply kept_tick. }
  specialize (Hi e H).
  destruct ((cancelAnimationFrame (fst request) ;; tick props host (snd request)) e)
    as [[a | message] e']; [exact Hi |].
  apply P_emit; [exact I | exact Hi].
Qed.

Lemma kept_callbacks requests : forall e,
  P e -> P (fold_left (runCallback props host) requests e).
Proof.
  induction requests as [| request requests IH]; intros e H; [exact H |].
  simpl. apply IH. apply kept_runCallback. exact H.
Qed.

(** Every step of the event loop keeps [P]. *)
Lemma kept_step e i : P e -> P (step props host e i).
Proof.
  intro H. destruct i as [| id r | time | id size | id recorderError | id |]; simpl.
  - apply kept_async; [apply kept_renderVideo | apply P_new; exact H].
  - destruct (r_awaiting (renderOf id e)); [| exact H].
    apply kept_async; [apply kept_renderVideo_resumed | exact H].
  - unfold animationFrame. apply kept_callbacks. apply P_now. exact H.
  - destruct (r_recorder (renderOf id e)); [| exact H].
    unfold ondataavailable. destruct (Nat.ltb 0 size); [| exact H].
    apply (kept_update id (with_chunk size) (keepsSettled_with_chunk size) e H).
  - destruct (r_recorder (renderOf id e)); [| exact H].
    apply kept_onerror.
    apply (kept_update id _ (keepsSettled_with_state inactive false) e H).
  - destruct (r_stopQueued (renderOf id e)); [| exact H].
    assert (Hi : invariant P (update id (with_state inactive false) ;; onstop id)).
    { apply invariant_bind;
        [apply kept_update; apply keepsSettled_with_state | intros _].
      apply kept_onstop. }
    exact (Hi e H).
  - apply P_canvasRef. exact (kept_cancelAnimation e H).
Qed.

Lemma kept_run inputs : forall e, P e -> P (run props host e inputs).
Proof.
  induction inputs as [| i inputs IH]; intros e H; [exact H |].
  simpl. apply IH. apply kept_step. exact H.
Qed.

End Kept.

(** ** Promises settle once *)

Lemma nth_alter_settled (f : Render -> Render) :
  keepsSettled f ->
  forall (l : list Render) id id',
    r_promise (nth id' l emptyRender) <> Pending ->
    r_promise (nth id' (alter f id l) emptyRender) = r_promise (nth id' l emptyRender).
Proof.
  intros Hf. induction l as [| r l IH]; intros id id' H.
  - destruct id; reflexivity.
  - destruct id as [| id], id' as [| id']; simpl in *; try reflexivity.
    + apply Hf. exact H.
    + apply IH. exact H.
Qed.

Lemma nth_new_settled (l : list Render) x id :
  r_promise (nth id l emptyRender) <> Pending ->
  nth id (l ++ [x]) emptyRender = nth id l emptyRender.
Proof.
  intro H. apply app_nth1.
  destruct (Nat.lt_ge_cases id (List.length l)) as [Hlt | Hge]; [exact Hlt |].
  rewrite (nth_overflow l emptyRender Hge) in H. simpl in H. congruence.
Qed.

Lemma settledKept_alter e0 f id e :
  keepsSettled f -> settledKept e0 e ->
  settledKept e0 (set_renders (alter f id (renders e)) e).
Proof.
  intros Hf H id' Hs. specialize (H id' Hs). unfold renderOf in *. fields.
  rewrite nth_alter_settled; [exact H | exact Hf | congruence].
Qed.

Lemma settledKept_new e0 e :
  settledKept e0 e -> settledKept e0 (set_renders (renders e ++ [emptyRender]) e).
Proof.
  intros H id Hs. specialize (H id Hs). unfold renderOf in *. fields.
  rewrite nth_new_settled; [exact H | congruence].
Qed.

Lemma run_settledKept (props : Props) (host : Host) e inputs :
  settledKept e (run props host e inputs).
Proof.
  apply (kept_run (settledKept e));
    try (intros; match goal with H : settledKept _ _ |- _ => exact H end).
  - intros f id' e'. apply settledKept_alter.
  - intros e'. apply settledKept_new.
  - intros id' _. reflexivity.
Qed.



(** ** Progress notifications *)





(** ** The image cache *)

Lemma loading_not_ordinary ev :
  ordinaryEvent ev -> isStatus loading_assets ev = false.
Proof. destruct ev as [[] | | | |]; simpl; tauto. Qed.

(** X17: once the image cache is filled it stays filled, and the component
    never announces [loading-assets] again, whatever calls and events
    follow: later renders reuse the cached images. *)
Theorem filled_cache_is_never_reloaded :
  forall (props : Props) (host : Host) (e : State) (inputs : list Input),
    cacheFilled e ->
    cacheFilled (run props host e inputs) /\
    loadingAnnouncements (run props host e inputs) = loadingAnnouncements e.
Proof.
  intros props host e inputs He.
  apply (kept_run (fun e' => cacheFilled e' /\
                             loadingAnnouncements e' = loadingAnnouncements e));
    try (intros; match goal with H : _ /\ _ |- _ => exact H end).
  - intros images e' H. cbv beta in *. destruct H as [Hc H].
    split; [discriminate | exact H].
  - intros ev e' Hev H. cbv beta in *. destruct H as [Hc H].
    split; [exact Hc |].
    unfold loadingAnnouncements in *. fields.
    rewrite filter_app, length_app. simpl.
    rewrite (loading_not_ordinary ev Hev). simpl. lia.
  - intros e' Hnone H. cbv beta in *. destruct H as [Hc H]. contradiction.
  - split; [exact He | reflexivity].
Qed.

Lemma filled_cache_is_never_reloaded_witness :
  loadingAnnouncements
    (run studioProps sampleHost inFlight
       [CallRenderVideo; AnimationFrame 40000; RecorderStop 1; CallRenderVideo])
  = loadingAnnouncements inFlight.
Proof.
  apply (filled_cache_is_never_reloaded studioProps sampleHost inFlight).
  vm_compute. discriminate.
Defined.

(** ** The frame queue *)

Lemma emits_fields events : forall e,
  canvasRef (emits events e) = canvasRef e /\
  animationRef (emits events e) = animationRef e /\
  imageCacheRef (emits events e) = imageCacheRef e /\
  startTimeRef (emits events e) = startTimeRef e /\
  now (emits events e) = now e /\
  nextFrameId (emits events e) = nextFrameId e /\
  frameRequests (emits events e) = frameRequests e /\
  renders (emits events e) = renders e /\
  trace (emits events e) = trace e ++ events.
Proof.
  induction events as [| ev events IH]; intro e.
  - simpl. rewrite app_nil_r. conjuncts; reflexivity.
  - simpl. destruct (IH (emit ev e)) as (H1 & H2 & H3 & H4 & H5 & H6 & H7 & H8 & H9).
    conjuncts; try assumption.
    rewrite H9. simpl. now rewrite <- app_assoc.
Qed.

(** [drawFrame] either hands over to [onComplete] after the progress
    notification, or only adds notifications and context calls. *)
Lemma drawFrame_cases (props : Props) (host : Host) images elapsedMs onComplete e :
  drawFrame props host images elapsedMs onComplete e
    = onComplete (emit (ProgressValue (progressOf props elapsedMs)) e) \/
  exists outcome events,
    Forall (fun ev => isStatus complete ev = false) events /\
    drawFrame props host images elapsedMs onComplete e = (outcome, emits events e).
Proof.
  unfold drawFrame. cbv zeta.
  destruct (geb elapsedMs (total props * 1000)); [left; reflexivity | right].
  destruct (resolveScene (scenes props) (elapsedMs / 1000)) as [sceneIndex accumulated].
  unfold bind at 1. unfold notifyProgress at 1, modify at 1.
  unfold bind at 1. unfold ctx at 1, modify at 1.
  unfold bind at 1. unfold ctx at 1, modify at 1.
  destruct (js_get (scenes props) sceneIndex) as [scene |].
  - destruct (js_get images sceneIndex) as [image |].
    + unfold bind at 1. unfold deref at 1, ret at 1.
      unfold bind at 1. unfold deref at 1, ret at 1.
      rewrite each_ctx.
      exists (Ok tt),
        (ProgressValue (progressOf props elapsedMs) :: Canvas save
           :: Canvas (clearRect 0 0 (res_width (resolution props))
                        (res_height (resolution props)))
           :: map Canvas
                (paint props host scene image (elapsedMs / 1000 - accumulated)
                   (progressOf props elapsedMs))).
      split; [| reflexivity].
      repeat (constructor; [reflexivity |]).
      apply Forall_forall. intros ev Hin. apply in_map_iff in Hin.
      destruct Hin as (op & <- & _). reflexivity.
    + eexists.
      exists [ProgressValue (progressOf props elapsedMs); Canvas save;
              Canvas (clearRect 0 0 (res_width (resolution props))
                        (res_height (resolution props)))].
      split; [repeat constructor | reflexivity].
  - eexists.
    exists [ProgressValue (progressOf props elapsedMs); Canvas save;
            Canvas (clearRect 0 0 (res_width (resolution props))
                      (res_height (resolution props)))].
    split; [repeat constructor | reflexivity].
Qed.

Lemma atMostOnePending_same e e' :
  animationRef e' = animationRef e -> nextFrameId e' = nextFrameId e ->
  frameRequests e' = frameRequests e ->
  atMostOnePending e -> atMostOnePending e'.
Proof.
  intros Ha Hn Hq. unfold atMostOnePending. rewrite Ha, Hn, Hq. tauto.
Qed.

Lemma cancelAnimation_empties e :
  atMostOnePending e ->
  fst (cancelAnimation e) = Ok tt /\
  frameRequests (snd (cancelAnimation e)) = [] /\
  nextFrameId (snd (cancelAnimation e)) = nextFrameId e /\
  canvasRef (snd (cancelAnimation e)) = canvasRef e /\
  renders (snd (cancelAnimation e)) = renders e /\
  trace (snd (cancelAnimation e)) = trace e /\
  now (snd (cancelAnimation e)) = now e.
Proof.
  intros [Hn [Hq | (h & id & Hq & Ha & Hh)]]; run_monad.
  - destruct (animationRef e) as [[| h] |]; cbn [Nat.eqb]; fields;
      rewrite ?Hq; conjuncts; reflexivity.
  - rewrite Ha. destruct h as [| h]; [lia |]. cbn [Nat.eqb]. fields.
    rewrite Hq. cbn [filter fst]. rewrite Nat.eqb_refl. conjuncts; reflexivity.
Qed.

(** With nothing pending, [tick] leaves at most its own request pending. *)
Lemma tick_atMostOnePending (props : Props) (host : Host) id e :
  (1 <= nextFrameId e)%nat -> frameRequests e = [] ->
  atMostOnePending (snd (tick props host id e)).
Proof.
  intros Hn Hq. unfold tick. unfold bind at 1, get at 1.
  destruct (canvasRef e); cbn [negb].
  2: { split; [exact Hn | left; exact Hq]. }
  unfold bind at 1.
  destruct (drawFrame_cases props host (r_images (renderOf id e))
              (now e - startTimeRef e)
              (stopRecorder id ;; cancelAnimation ;; notifyStatus complete ;;
               notifyProgress 1) e) as [-> | (outcome & events & _ & ->)].
  - run_monad. fields.
    destruct (r_recorder (nth id (renders e) emptyRender)) as [[|] |];
      fields; (destruct (animationRef e) as [[| h] |]; cbn [Nat.eqb]; fields;
               rewrite ?Hq; cbn [filter app];
               unfold atMostOnePending; fields;
               (split; [lia | right; eexists; eexists;
                               (split; [reflexivity |]);
                               (split; [reflexivity | lia])])).
  - destruct (emits_fields events e) as (_ & _ & _ & _ & _ & En & Eq & _ & _).
    destruct outcome as [[] | message].
    + run_monad. unfold atMostOnePending. fields. rewrite En, Eq, Hq. cbn [app].
      split; [lia | right]. eexists. eexists.
      split; [reflexivity |]. split; [reflexivity | lia].
    + cbn [snd]. split; [rewrite En; exact Hn | left; rewrite Eq; exact Hq].
Qed.

Lemma startAnimation_atMostOnePending id e :
  atMostOnePending e -> atMostOnePending (snd (startAnimation id e)).
Proof.
  intro H. destruct (cancelAnimation_empties e H) as (Hok & Hq & Hn & _).
  destruct H as [H1 _].
  unfold startAnimation. unfold bind at 1.
  destruct (cancelAnimation e) as [[[] | message] e1]; simpl in Hok; [| discriminate].
  cbn [snd] in *. run_monad. unfold atMostOnePending. fields.
  rewrite Hq, Hn. cbn [app].
  split; [lia | right]. eexists. eexists.
  split; [reflexivity |]. split; [reflexivity | lia].
Qed.

Lemma capture_atMostOnePending (host : Host) id images e :
  atMostOnePending e -> atMostOnePending (snd (capture host id images e)).
Proof.
  intro H. unfold capture. unfold bind at 1, get at 1.
  destruct (negb (canvasRef e)); [exact H |].
  destruct (negb (getContext2d host)); [exact H |].
  cbv zeta. destruct (recorderFailure host); [exact H |].
  unfold bind at 1. unfold update at 1, modify at 1.
  unfold bind at 1. unfold update at 1, modify at 1.
  apply startAnimation_atMostOnePending. exact H.
Qed.

Lemma catch_atMostOnePending message e :
  atMostOnePending e -> atMostOnePending (snd (catch message e)).
Proof. intro H. exact H. Qed.

Lemma async_atMostOnePending id body e :
  atMostOnePending (snd (body e)) -> atMostOnePending (async id body e).
Proof.
  intro H. unfold async. destruct (body e) as [[a | message] e']; exact H.
Qed.

Lemma renderVideo_atMostOnePending (host : Host) id e :
  atMostOnePending e -> atMostOnePending (snd (renderVideo host id e)).
Proof.
  intro H. run_shallow.
  destruct (canvasRef e); cbn [negb]; [| exact H].
  destruct (MEDIA_RECORDER_SUPPORT host); cbn [negb]; [| exact H].
  destruct (imageCacheRef e) as [images |]; [| exact H].
  pose proof (capture_atMostOnePending host id images e H) as Hc.
  destruct (capture host id images e) as [[[] | message] e']; exact Hc.
Qed.

Lemma renderVideo_resumed_atMostOnePending (host : Host) id r e :
  atMostOnePending e -> atMostOnePending (snd (renderVideo_resumed host id r e)).
Proof.
  intro H. run_shallow. destruct r as [images | image]; [| exact H].
  match goal with
  | |- context [capture host id images ?e1] =>
      pose proof (capture_atMostOnePending host id images e1 H) as Hc;
      destruct (capture host id images e1) as [[[] | message] e']; exact Hc
  end.
Qed.

Lemma runCallback_atMostOnePending (props : Props) (host : Host) handle id e :
  (1 <= nextFrameId e)%nat -> frameRequests e = [(handle, id)] ->
  atMostOnePending (runCallback props host e (handle, id)).
Proof.
  intros Hn Hq. unfold runCallback. rewrite Hq. cbn [existsb fst snd].
  rewrite Nat.eqb_refl. cbn [orb].
  unfold bind at 1. unfold cancelAnimationFrame at 1, modify at 1.
  rewrite Hq. cbn [filter fst]. rewrite Nat.eqb_refl. cbn [negb].
  pose proof (tick_atMostOnePending props host id
                (set_frames (nextFrameId e) [] e) Hn eq_refl) as Ht.
  destruct (tick props host id (set_frames (nextFrameId e) [] e))
    as [[[] | message] e']; exact Ht.
Qed.

(** The state after the handler part of [onerror]. *)
Lemma onerror_handler id shown e :
  fst (cancelAnimation e) = Ok tt ->
  snd ((cancelAnimation ;; update id with_trackStop ;; notifyStatus error ;;
        onError shown) e)
  = emit (ErrorMessage shown)
      (emit (StatusChange error)
         (set_renders (alter with_trackStop id (renders (snd (cancelAnimation e))))
            (snd (cancelAnimation e)))).
Proof.
  intro Hok. unfold bind at 1.
  destruct (cancelAnimation e) as [[[] | message] e1]; simpl in Hok;
    [reflexivity | discriminate].
Qed.

Lemma onerror_atMostOnePending id recorderError e :
  atMostOnePending e -> atMostOnePending (onerror id recorderError e).
Proof.
  intro H. destruct (cancelAnimation_empties e H) as (Hok & Hq & Hn & _).
  destruct H as [H1 _]. unfold onerror. cbv zeta.
  rewrite (onerror_handler id _ e Hok).
  match goal with
  | |- context [match ?p with Pending => _ | Fulfilled _ _ => _ | Rejected _ => _ end] =>
      destruct p
  end; unfold async; run_shallow; unfold atMostOnePending; fields;
    rewrite Hq, Hn; (split; [exact H1 | left; reflexivity]).
Qed.

(** Every step keeps at most one callback pending. *)
Lemma step_atMostOnePending (props : Props) (host : Host) e i :
  atMostOnePending e -> atMostOnePending (step props host e i).
Proof.
  intro H. destruct i as [| id r | time | id size | id recorderError | id |]; simpl.
  - apply async_atMostOnePending. apply renderVideo_atMostOnePending. exact H.
  - destruct (r_awaiting (renderOf id e)); [| exact H].
    apply async_atMostOnePending. apply renderVideo_resumed_atMostOnePending.
    exact H.
  - unfold animationFrame. fields.
    destruct H as [Hn [Hq | (h & id & Hq & Ha & Hh)]]; rewrite Hq; cbn [fold_left].
    + split; [exact Hn | left; exact Hq].
    + apply runCallback_atMostOnePending; assumption.
  - destruct (r_recorder (renderOf id e)); [| exact H].
    unfold ondataavailable. destruct (Nat.ltb 0 size); exact H.
  - destruct (r_recorder (renderOf id e)); [| exact H].
    apply onerror_atMostOnePending. exact H.
  - destruct (r_stopQueued (renderOf id e)); exact H.
  - destruct (cancelAnimation_empties e H) as (_ & Hq & Hn & _).
    destruct H as [H1 _]. unfold atMostOnePending. fields.
    rewrite Hq, Hn. split; [exact H1 | left; reflexivity].
Qed.

Lemma run_atMostOnePending (props : Props) (host : Host) inputs : forall e,
  atMostOnePending e -> atMostOnePending (run props host e inputs).
Proof.
  induction inputs as [| i inputs IH]; intros e H; [exact H |].
  simpl. apply IH. apply step_atMostOnePending. exact H.
Qed.

(** X18: whatever calls and events the mounted (or not yet mounted)
    component receives, at most one animation-frame callback is pending at
    any time, and when one is pending [animationRef] holds its handle: a
    second render, a recorder error or any other input never leaves two ticks
    running side by side, and [cancelAnimation] always finds the callback to
    cancel. *)
Theorem at_most_one_frame_callback_is_pending :
  forall (props : Props) (host : Host) (inputs : list Input) (e : State),
    e = mounted \/ e = detached ->
    let reached := run props host e inputs in
    atMostOnePending reached /\
    (List.length (frameRequests reached) <= 1)%nat /\
    frameRequests (snd (cancelAnimation reached)) = [].
Proof.
  intros props host inputs e He reached.
  assert (H0 : atMostOnePending e).
  { destruct He as [-> | ->]; (split; [simpl; lia | left; reflexivity]). }
  pose proof (run_atMostOnePending props host inputs e H0) as H.
  fold reached in H. split; [exact H |]. split.
  - destruct H as [_ [-> | (h & id & -> & _)]]; simpl; lia.
  - apply cancelAnimation_empties. exact H.
Qed.

Lemma at_most_one_frame_callback_is_pending_witness :
  (List.length
     (frameRequests
        (run studioProps sampleHost mounted
           [CallRenderVideo; ImagesSettled 0 (Loaded sampleImages);
            AnimationFrame 1000; CallRenderVideo; CallRenderVideo;
            AnimationFrame 2000])) <= 1)%nat.
Proof.
  apply (at_most_one_frame_callback_is_pending studioProps sampleHost
           [CallRenderVideo; ImagesSettled 0 (Loaded sampleImages);
            AnimationFrame 1000; CallRenderVideo; CallRenderVideo;
            AnimationFrame 2000] mounted).
  left. reflexivity.
Defined.

(** ** After the unmount *)

Lemma cancelAnimation_idle e :
  frameRequests e = [] ->
  fst (cancelAnimation e) = Ok tt /\
  frameRequests (snd (cancelAnimation e)) = [] /\
  canvasRef (snd (cancelAnimation e)) = canvasRef e /\
  renders (snd (cancelAnimation e)) = renders e /\
  trace (snd (cancelAnimation e)) = trace e.
Proof.
  intro Hq. run_monad.
  destruct (animationRef e) as [[| h] |]; cbn [Nat.eqb]; fields;
    rewrite ?Hq; conjuncts; reflexivity.
Qed.

Lemma canvasCalls_emit ev e :
  isCanvas ev = false -> canvasCalls (emit ev e) = canvasCalls e.
Proof.
  intro H. unfold canvasCalls. fields. rewrite filter_app. simpl. rewrite H.
  apply app_nil_r.
Qed.

(** Once torn down, every step leaves the component torn down and makes no
    call on the context. *)
Lemma step_tornDown (props : Props) (host : Host) e i :
  tornDown e ->
  tornDown (step props host e i) /\
  canvasCalls (step props host e i) = canvasCalls e.
Proof.
  intros [Hc Hq].
  destruct i as [| id r | time | id size | id recorderError | id |]; simpl.
  - unfold async. run_monad. fields. rewrite Hc. fields.
    split; [split; assumption | reflexivity].
  - destruct (r_awaiting (renderOf id e)); [| split; [split; assumption | reflexivity]].
    unfold async. run_monad. destruct r as [images | image];
      repeat (progress (fields; rewrite ?Hc));
      (split; [split; assumption |]);
      unfold canvasCalls; fields; rewrite !filter_app; simpl;
      rewrite !app_nil_r; reflexivity.
  - unfold animationFrame. fields. rewrite Hq. cbn [fold_left].
    split; [split; assumption | reflexivity].
  - destruct (r_recorder (renderOf id e)); [| split; [split; assumption | reflexivity]].
    unfold ondataavailable. destruct (Nat.ltb 0 size);
      (split; [split; assumption | reflexivity]).
  - destruct (r_recorder (renderOf id e)); [| split; [split; assumption | reflexivity]].
    set (e0 := snd (update id (with_state inactive false) e)).
    assert (Hq0 : frameRequests e0 = []) by exact Hq.
    destruct (cancelAnimation_idle e0 Hq0) as (Hok & Hq1 & Hc1 & _ & Ht1).
    unfold onerror. cbv zeta. rewrite (onerror_handler id _ e0 Hok).
    match goal with
    | |- context [match ?p with Pending => _ | Fulfilled _ _ => _ | Rejected _ => _ end] =>
        destruct p
    end; unfold async; run_shallow; unfold tornDown, canvasCalls; fields;
      rewrite Hq1, Hc1, Ht1; rewrite ?filter_app; simpl; rewrite ?app_nil_r;
      (split; [split; [exact Hc | reflexivity] | reflexivity]).
  - destruct (r_stopQueued (renderOf id e));
      (split; [split; assumption | reflexivity]).
  - destruct (cancelAnimation_idle e Hq) as (_ & Hq1 & _ & _ & Ht1).
    unfold tornDown, canvasCalls. fields. rewrite Hq1, Ht1.
    split; [split; reflexivity | reflexivity].
Qed.

Lemma run_tornDown (props : Props) (host : Host) inputs : forall e,
  tornDown e ->
  tornDown (run props host e inputs) /\
  canvasCalls (run props host e inputs) = canvasCalls e.
Proof.
  induction inputs as [| i inputs IH]; intros e H; [split; [exact H | reflexivity] |].
  simpl. destruct (step_tornDown props host e i H) as [Hs Hc].
  destruct (IH _ Hs) as [Hr Hc']. split; [exact Hr | congruence].
Qed.

(** X19: the unmount is final.  After the component, in whatever state it
    has reached, is unmounted, no frame callback is pending, and whatever
    calls and events follow (frames, recorder events, images arriving, new
    calls of [renderVideo]) none is ever pending again and no further call
    is made on the drawing context. *)
Theorem unmount_stops_all_drawing :
  forall (props : Props) (host : Host) (before after : list Input) (e : State),
    e = mounted \/ e = detached ->
    let down := step props host (run props host e before) Unmount in
    let later := run props host down after in
    canvasCalls down = canvasCalls (run props host e before) /\
    canvasRef later = false /\
    frameRequests later = [] /\
    canvasCalls later = canvasCalls down.
Proof.
  intros props host before after e He down later.
  assert (H0 : atMostOnePending e).
  { destruct He as [-> | ->]; (split; [simpl; lia | left; reflexivity]). }
  pose proof (run_atMostOnePending props host before e H0) as H.
  destruct (cancelAnimation_empties _ H) as (_ & Hq & _ & _ & _ & Ht & _).
  assert (Hdown : tornDown down).
  { subst down. unfold tornDown. simpl. fields. split; [reflexivity | exact Hq]. }
  destruct (run_tornDown props host after down Hdown) as [[Hc Hf] Hcalls].
  split; [| split; [exact Hc | split; [exact Hf | exact Hcalls]]].
  subst down. unfold canvasCalls. simpl. fields. rewrite Ht. reflexivity.
Qed.

Lemma unmount_stops_all_drawing_witness :
  let before := [CallRenderVideo; ImagesSettled 0 (Loaded sampleImages);
                 AnimationFrame 1000] in
  let after := [AnimationFrame 2000; CallRenderVideo; AnimationFrame 3000] in
  let down :=
    step studioProps sampleHost (run studioProps sampleHost mounted before) Unmount in
  frameRequests (run studioProps sampleHost down after) = [] /\
  canvasCalls (run studioProps sampleHost down after) = canvasCalls down.
Proof.
  intros before after down.
  exact (proj2 (proj2
    (unmount_stops_all_drawing studioProps sampleHost before after
       mounted (or_introl eq_refl)))).
Defined.

(** ** A whole render *)

Lemma with_chunks_fields sizes : forall r,
  let r' := fold_left (fun r' size => with_chunk size r') sizes r in
  r_chunks r' = r_chunks r ++ sizes /\
  r_recorder r' = r_recorder r /\ r_stopQueued r' = r_stopQueued r /\
  r_promise r' = r_promise r /\ r_mimeType r' = r_mimeType r /\
  r_trackStops r' = r_trackStops r.
Proof.
  induction sizes as [| size sizes IH]; intro r; simpl.
  - rewrite app_nil_r. conjuncts; reflexivity.
  - destruct (IH (with_chunk size r)) as (H1 & H2 & H3 & H4 & H5 & H6).
    conjuncts; try assumption. rewrite H1. simpl. now rewrite <- app_assoc.
Qed.

Lemma set_renders_same e r : renders e = r -> set_renders r e = e.
Proof. intros <-. destruct e. reflexivity. Qed.

(** Segments delivered to the only render are appended when not empty. *)
Lemma run_segments (props : Props) (host : Host) sizes : forall e r,
  renders e = [r] -> r_recorder r <> None ->
  run props host e (segments 0 sizes)
  = set_renders
      [fold_left (fun r' size => with_chunk size r') (filter (Nat.ltb 0) sizes) r] e.
Proof.
  induction sizes as [| size sizes IH]; intros e r Hr Hrec.
  - simpl. symmetry. apply set_renders_same. exact Hr.
  - cbn [segments map run fold_left step]. unfold renderOf. rewrite Hr. cbn [nth].
    destruct (r_recorder r) eqn:E; [| congruence].
    unfold ondataavailable. cbn [filter]. destruct (Nat.ltb 0 size) eqn:Es.
    + run_monad. cbn [snd]. rewrite Hr. cbn [alter].
      change (fold_left (step props host) (map (DataAvailable 0) sizes)
                (set_renders [with_chunk size r] e))
        with (run props host (set_renders [with_chunk size r] e) (segments 0 sizes)).
      rewrite (IH (set_renders [with_chunk size r] e) (with_chunk size r) eq_refl)
        by (simpl; congruence).
      reflexivity.
    + cbn [snd ret].
      change (fold_left (step props host) (map (DataAvailable 0) sizes) e)
        with (run props host e (segments 0 sizes)).
      apply IH; [exact Hr | congruence].
Qed.

Lemma run_app (props : Props) (host : Host) l1 l2 e :
  run props host e (l1 ++ l2) = run props host (run props host e l1) l2.
Proof. unfold run. apply fold_left_app. Qed.

(** The state in which the first render records: after the call and the
    arrival of the images. *)
Lemma run_to_recording (props : Props) (host : Host) images :
  MEDIA_RECORDER_SUPPORT host = true ->
  getContext2d host = true ->
  recorderFailure host = None ->
  run props host mounted [CallRenderVideo; ImagesSettled 0 (Loaded images)]
  = {| canvasRef := true; animationRef := Some 1%nat;
       imageCacheRef := Some images; startTimeRef := 0; now := 0;
       nextFrameId := 2; frameRequests := [(1%nat, 0%nat)];
       renders :=
         [ with_state recording false
             (with_recorder images (buildMimeType host) inactive
                (with_awaiting false (with_awaiting true emptyRender))) ];
       trace := [StatusChange loading_assets; ProgressValue 0;
                 StatusChange rendering] |}.
Proof.
  intros Hm Hg Hr.
  unfold run. cbn [fold_left]. unfold step at 2. run_monad.
  repeat (progress (fields; rewrite ?Hm)). cbn [mounted app alter List.length].
  unfold step. run_monad.
  repeat (progress (fields; cbn [nth alter]; rewrite ?Hg, ?Hr)).
  reflexivity.
Qed.

(** X20: a whole render, for any configuration, images and supporting
    host.  The call, the images, recorded segments, the first frame at or
    beyond the configured duration, more segments and the recorder's stop
    event resolve the promise with exactly the non-empty segments in their
    order of arrival, under the mime type chosen by [buildMimeType]; the
    caller has been notified of loading, progress 0, rendering, the final
    progress, completion and progress 1, in this order; the stream's tracks
    have been stopped once and the images are cached. *)
Theorem render_resolves_with_recorded_segments :
  forall (props : Props) (host : Host) (images : list Image)
         (before after : list nat) (time : Q),
    MEDIA_RECORDER_SUPPORT host = true ->
    getContext2d host = true ->
    recorderFailure host = None ->
    0 <= time -> total props * 1000 <= time ->
    let final :=
      run props host mounted
        ([CallRenderVideo; ImagesSettled 0 (Loaded images)] ++
         segments 0 before ++ [AnimationFrame time] ++
         segments 0 after ++ [RecorderStop 0]) in
    r_promise (renderOf 0 final)
      = Fulfilled (filter (Nat.ltb 0) before ++ filter (Nat.ltb 0) after) (buildMimeType host) /\
    trace final
      = [StatusChange loading_assets; ProgressValue 0; StatusChange rendering;
         ProgressValue (progressOf props (time - 0)); StatusChange complete;
         ProgressValue 1] /\
    r_trackStops (renderOf 0 final) = 1%nat /\
    r_recorder (renderOf 0 final) = Some inactive /\
    imageCacheRef final = Some images.
Proof.
  intros props host images before after time Hm Hg Hr H0 Hdone final. subst final.
  rewrite !run_app.
  rewrite (run_to_recording props host images Hm Hg Hr).
  set (R0 := with_state recording false
             (with_recorder images (buildMimeType host) inactive
                (with_awaiting false (with_awaiting true emptyRender)))).
  set (S0 := {| canvasRef := true; animationRef := _ |}).
  rewrite (run_segments props host before S0 R0 eq_refl) by discriminate.
  set (R1 := fold_left _ _ R0).
  destruct (with_chunks_fields (filter (Nat.ltb 0) before) R0)
    as (C1 & C2 & C3 & C4 & C5 & C6). fold R1 in C1, C2, C3, C4, C5, C6.
  assert (E1 : run props host (set_renders [R1] S0) [AnimationFrame time]
    = {| canvasRef := true; animationRef := Some 2%nat;
         imageCacheRef := Some images; startTimeRef := 0; now := time;
         nextFrameId := 3; frameRequests := [(2%nat, 0%nat)];
         renders := [with_state inactive true R1];
         trace := [StatusChange loading_assets; ProgressValue 0;
                   StatusChange rendering;
                   ProgressValue (progressOf props (time - 0));
                   StatusChange complete; ProgressValue 1] |}).
  { unfold run. cbn [fold_left]. unfold step, animationFrame. subst S0. fields.
    rewrite (Math_max_0 time H0). cbn [fold_left]. unfold runCallback. fields.
    cbn [existsb Nat.eqb orb fst snd].
    unfold bind at 1. unfold cancelAnimationFrame at 1, modify at 1. fields.
    cbn [filter Nat.eqb negb fst].
    unfold tick. unfold bind at 1, get at 1. fields. unfold bind at 1.
    rewrite (drawFrame_completes props host _ (time - 0))
      by (unfold Qminus; rewrite Qplus_0_r; exact Hdone).
    run_monad. fields. cbn [nth]. rewrite C2. subst R0. fields. cbn [Nat.eqb alter app].
    fields. cbn [filter]. reflexivity. }
  rewrite E1. clear E1.
  set (S1 := {| canvasRef := true; animationRef := Some 2%nat |}).
  rewrite (run_segments props host after S1 (with_state inactive true R1) eq_refl)
    by (simpl; rewrite C2; discriminate).
  set (R2 := fold_left _ _ (with_state inactive true R1)).
  destruct (with_chunks_fields (filter (Nat.ltb 0) after) (with_state inactive true R1))
    as (D1 & D2 & D3 & D4 & D5 & D6). fold R2 in D1, D2, D3, D4, D5, D6.
  simpl in D1, D2, D3, D4, D5, D6.
  rewrite C1 in D1. rewrite C2 in D2. rewrite C4 in D4. rewrite C5 in D5.
  rewrite C6 in D6. subst R0. simpl in D1, D2, D4, D5, D6.
  unfold run. cbn [fold_left]. unfold step. unfold renderOf. subst S1. fields.
  cbn [nth]. rewrite D3. run_monad. fields. cbn [nth alter]. fields.
  rewrite D1, D2, D4, D5, D6. conjuncts; reflexivity.
Qed.

Lemma render_resolves_with_recorded_segments_witness :
  r_promise
    (renderOf 0
       (run studioProps sampleHost mounted
          ([CallRenderVideo; ImagesSettled 0 (Loaded sampleImages)] ++
           segments 0 [512; 0; 2048]%nat ++ [AnimationFrame 30000] ++
           segments 0 [128]%nat ++ [RecorderStop 0])))
  = Fulfilled (filter (Nat.ltb 0) [512; 0; 2048]%nat ++ filter (Nat.ltb 0) [128]%nat)
      (buildMimeType sampleHost).
Proof.
  exact (proj1 (render_resolves_with_recorded_segments studioProps sampleHost
                  sampleImages [512; 0; 2048]%nat [128]%nat 30000
                  eq_refl eq_refl eq_refl
                  ltac:(vm_compute; discriminate) ltac:(vm_compute; discriminate))).
Defined.

(** X21: a recorder error in the middle of a recording ends the render for
    good, for any configuration, images, segments recorded so far and error:
    the pending frame callback is cancelled and [animationRef] cleared, the
    stream's tracks are stopped once, the promise is rejected with the
    recorder's error (or "Recording failed."), and whatever follows the
    promise stays rejected: the segments recorded before the error are never
    delivered. *)
Theorem recorder_error_ends_the_render :
  forall (props : Props) (host : Host) (images : list Image)
         (before : list nat) (recorderError : option string),
    MEDIA_RECORDER_SUPPORT host = true ->
    getContext2d host = true ->
    recorderFailure host = None ->
    let failed :=
      run props host mounted
        ([CallRenderVideo; ImagesSettled 0 (Loaded images)] ++
         segments 0 before ++ [RecorderError 0 recorderError]) in
    let thrown := match recorderError with
                  | Some message => message
                  | None => "Recording failed."%string
                  end in
    frameRequests failed = [] /\
    animationRef failed = None /\
    r_trackStops (renderOf 0 failed) = 1%nat /\
    r_recorder (renderOf 0 failed) = Some inactive /\
    r_chunks (renderOf 0 failed) = filter (Nat.ltb 0) before /\
    r_promise (renderOf 0 failed) = Rejected thrown /\
    forall later,
      r_promise (renderOf 0 (run props host failed later)) = Rejected thrown.
Proof.
  intros props host images before recorderError Hm Hg Hr failed thrown.
  assert (Hnow : frameRequests failed = [] /\
                 animationRef failed = None /\
                 r_trackStops (renderOf 0 failed) = 1%nat /\
                 r_recorder (renderOf 0 failed) = Some inactive /\
                 r_chunks (renderOf 0 failed) = filter (Nat.ltb 0) before /\
                 r_promise (renderOf 0 failed) = Rejected thrown).
  { subst failed thrown. rewrite !run_app.
    rewrite (run_to_recording props host images Hm Hg Hr).
    set (R0 := with_state recording false
                 (with_recorder images (buildMimeType host) inactive
                    (with_awaiting false (with_awaiting true emptyRender)))).
    set (S0 := {| canvasRef := true; animationRef := _ |}).
    rewrite (run_segments props host before S0 R0 eq_refl) by discriminate.
    set (R1 := fold_left _ _ R0).
    destruct (with_chunks_fields (filter (Nat.ltb 0) before) R0)
      as (C1 & C2 & C3 & C4 & C5 & C6). fold R1 in C1, C2, C3, C4, C5, C6.
    subst R0. simpl in C1, C2, C3, C4, C5, C6.
    assert (E : run props host (set_renders [R1] S0) [RecorderError 0 recorderError]
      = {| canvasRef := true; animationRef := None;
           imageCacheRef := Some images; startTimeRef := 0; now := 0;
           nextFrameId := 2; frameRequests := [];
           renders :=
             [ with_settlement
                 (Rejected match recorderError with
                           | Some message => message
                           | None => "Recording failed."%string
                           end)
                 (with_trackStop (with_state inactive false R1)) ];
           trace :=
             [ StatusChange loading_assets; ProgressValue 0; StatusChange rendering;
               StatusChange error;
               ErrorMessage match recorderError with
                            | Some message => message
                            | None => "Recording error encountered."%string
                            end;
               StatusChange error;
               ErrorMessage match recorderError with
                            | Some message => message
                            | None => "Recording failed."%string
                            end ] |}).
    { unfold run. cbn [fold_left]. unfold step, onerror. unfold renderOf. subst S0.
      run_monad. fields. cbn [nth alter Nat.eqb filter fst negb]. fields.
      rewrite C2. fields. cbn [nth alter]. fields. rewrite C4.
      unfold async. run_monad. fields. cbn [nth alter]. fields. rewrite ?C4.
      reflexivity. }
    rewrite E. unfold renderOf. fields. cbn [nth]. fields.
    rewrite C1, C2, C4, C6. conjuncts; reflexivity. }
  destruct Hnow as (H1 & H2 & H3 & H4 & H5 & H6).
  conjuncts; try assumption.
  intro later. rewrite <- H6. apply run_settledKept. rewrite H6. discriminate.
Qed.

Lemma recorder_error_ends_the_render_witness :
  r_promise
    (renderOf 0
       (run studioProps sampleHost
          (run studioProps sampleHost mounted
             ([CallRenderVideo; ImagesSettled 0 (Loaded sampleImages)] ++
              segments 0 [512]%nat ++ [RecorderError 0 None]))
          [RecorderStop 0; AnimationFrame 40000; CallRenderVideo]))
  = Rejected "Recording failed.".
Proof.
  exact (proj2 (proj2 (proj2 (proj2 (proj2 (proj2
    (recorder_error_ends_the_render studioProps sampleHost sampleImages
       [512]%nat None eq_refl eq_refl eq_refl))))))
    [RecorderStop 0; AnimationFrame 40000; CallRenderVideo]).
Defined.

(** X22: when the image list has no image at the index of the selected
    scene (an image cache shorter than the scene list), a frame below the
    configured duration saves and clears the canvas and then throws on
    [image.width]: nothing of the scene is drawn and the context is left
    saved, without [restore]. *)
Theorem drawFrame_without_image_throws :
  forall (props : Props) (host : Host) (images : list Image) (elapsedMs : Q)
         (onComplete : M unit) (e : State),
    scenes props <> [] ->
    elapsedMs < total props * 1000 ->
    js_get images (fst (resolveScene (scenes props) (elapsedMs / 1000))) = None ->
    drawFrame props host images elapsedMs onComplete e
    = (Throw "Cannot read properties of undefined (reading 'width')",
       emits [ ProgressValue (progressOf props elapsedMs); Canvas save;
               Canvas (clearRect 0 0 (res_width (resolution props))
                         (res_height (resolution props))) ] e).
Proof.
  intros props host images elapsedMs onComplete e Hne Hlt Hnone.
  pose proof (sceneLoop_index (scenes props) 0%Z (elapsedMs / 1000) 0
                (Z.of_nat (List.length (scenes props)) - 1)%Z) as Hidx.
  fold (resolveScene (scenes props) (elapsedMs / 1000)) in Hidx.
  assert (Hpos : (0 < List.length (scenes props))%nat)
    by (destruct (scenes props); [congruence | simpl; lia]).
  unfold drawFrame. cbv zeta.
  rewrite (proj2 (geb_false elapsedMs (total props * 1000)) Hlt).
  destruct (resolveScene (scenes props) (elapsedMs / 1000))
    as [sceneIndex accumulated]. simpl fst in *.
  assert (Hrange : (0 <= sceneIndex < Z.of_nat (List.length (scenes props)))%Z)
    by (destruct Hidx as [-> | H]; lia).
  rewrite Hnone. unfold js_get.
  destruct (sceneIndex <? 0)%Z eqn:En; [apply Z.ltb_lt in En; lia |].
  destruct (nth_error (scenes props) (Z.to_nat sceneIndex)) as [scene |] eqn:Es.
  2: { apply nth_error_None in Es. lia. }
  reflexivity.
Qed.

Lemma drawFrame_without_image_throws_witness :
  fst (drawFrame studioProps sampleHost [] 1000 (ret tt) mounted)
  = Throw "Cannot read properties of undefined (reading 'width')".
Proof.
  rewrite (drawFrame_without_image_throws studioProps sampleHost [] 1000 (ret tt)
             mounted ltac:(discriminate) ltac:(vm_compute; reflexivity)
             ltac:(vm_compute; reflexivity)).
  reflexivity.
Defined.

(** ** The selected scene *)

(** X23: inside the timeline the selected scene is in progress: for
    positive durations and [0 <= t < sum of the durations] the scene time is
    at least 0 and less than the duration of the selected scene, so the scene
    progress is the plain quotient, not clamped, and less than 1. *)
Theorem scene_progress_inside_timeline :
  forall (scenes : list SceneConfig) (t : Q),
    Forall (fun s => 0 < duration s) scenes ->
    0 <= t -> t < sumDurations scenes ->
    exists (i : nat) (scene : SceneConfig),
      fst (resolveScene scenes t) = Z.of_nat i /\
      nth_error scenes i = Some scene /\
      0 <= sceneElapsedOf scenes t /\
      sceneElapsedOf scenes t < duration scene /\
      clamp (sceneElapsedOf scenes t / duration scene) 0 1
        == sceneElapsedOf scenes t / duration scene /\
      sceneElapsedOf scenes t / duration scene < 1.
Proof.
  intros scenes t Hpos H0 Ht. unfold sceneElapsedOf, resolveScene.
  destruct (sceneLoop_finds scenes 0%Z t 0
              (Z.of_nat (List.length scenes) - 1)%Z Hpos H0)
    as (k & sc & Hnth & Hfst & _ & Hle & Hlt); [lra |].
  exists k, sc.
  set (acc := snd (sceneLoop scenes 0 t 0 (Z.of_nat (List.length scenes) - 1))) in *.
  assert (Hd : 0 < duration sc).
  { rewrite Forall_forall in Hpos. apply Hpos. eapply nth_error_In. exact Hnth. }
  assert (Hq0 : 0 <= (t - acc) / duration sc) by (apply Qle_shift_div_l; lra).
  assert (Hq1 : (t - acc) / duration sc < 1) by (apply Qlt_shift_div_r; lra).
  conjuncts; try assumption; try lra.
  apply clamp_inside; lra.
Qed.

Lemma scene_progress_inside_timeline_witness :
  exists (i : nat) (scene : SceneConfig),
    fst (resolveScene SCENES (29999 # 1000)) = Z.of_nat i /\
    nth_error SCENES i = Some scene /\
    0 <= sceneElapsedOf SCENES (29999 # 1000) /\
    sceneElapsedOf SCENES (29999 # 1000) < duration scene /\
    clamp (sceneElapsedOf SCENES (29999 # 1000) / duration scene) 0 1
      == sceneElapsedOf SCENES (29999 # 1000) / duration scene /\
    sceneElapsedOf SCENES (29999 # 1000) / duration scene < 1.
Proof.
  apply (scene_progress_inside_timeline SCENES (29999 # 1000)).
  - repeat constructor.
  - vm_compute. discriminate.
  - vm_compute. reflexivity.
Defined.

Lemma sceneLoop_durations_only rest : forall rest' i t acc dflt,
  map duration rest = map duration rest' ->
  sceneLoop rest i t acc dflt = sceneLoop rest' i t acc dflt.
Proof.
  induction rest as [| s rest IH]; intros [| s' rest'] i t acc dflt H;
    try discriminate; [reflexivity |].
  simpl in H. injection H as Hd Hrest. simpl. rewrite Hd.
  destruct (geb t acc && ltb t (acc + duration s')); [reflexivity |].
  apply IH. exact Hrest.
Qed.

(** X24: the resolver reads nothing of a scene but its duration: two scene
    lists with the same durations in the same order select the same index
    and the same scene time at every instant, whatever their [start] fields,
    titles and images. *)
Theorem resolver_reads_durations_only :
  forall (scenes scenes' : list SceneConfig) (t : Q),
    map duration scenes = map duration scenes' ->
    resolveScene scenes t = resolveScene scenes' t /\
    sceneElapsedOf scenes t = sceneElapsedOf scenes' t.
Proof.
  intros scenes scenes' t H.
  assert (E : resolveScene scenes t = resolveScene scenes' t).
  { unfold resolveScene.
    assert (Hl : List.length scenes = List.length scenes').
    { rewrite <- (length_map duration scenes), H. apply length_map. }
    rewrite Hl. apply sceneLoop_durations_only. exact H. }
  split; [exact E |]. unfold sceneElapsedOf. now rewrite E.
Qed.

Lemma resolver_reads_durations_only_witness :
  resolveScene SCENES 13
  = resolveScene (map (fun s => Build_SceneConfig "" "" "" "" 0 (duration s)) SCENES) 13.
Proof.
  apply (resolver_reads_durations_only SCENES
           (map (fun s => Build_SceneConfig "" "" "" "" 0 (duration s)) SCENES) 13).
  reflexivity.
Defined.
